(** * password_checker.py: a shallow embedding and its properties

    The scorer of [src/password_checker.py] is a composition of pure
    functions over a Python [str].  A [str] is modelled as the list of its
    Unicode code points.  The few operations that can raise in Python (list
    indexing, true division, [math.log2]) return a [result], so that the
    absence of exceptions is a theorem and not a property of the encoding.

    Python's Unicode character database ([str.islower], [str.isupper],
    [str.isdigit], [str.lower], and the [\d] and [\w] classes of [re]) is
    not part of the repository: it is a parameter, the class [Unicode],
    together with the laws [UnicodeLaws] the proofs rely on.  [Latin1] is
    the database on U+0000..U+00FF; it is used to run the scorer on
    concrete passwords. *)

From Stdlib Require Import ZArith NArith QArith List Bool String Ascii Lia.
From Stdlib Require Import Permutation DecimalString.
Import ListNotations.
Open Scope Z_scope.

(** ** Strings *)

Definition char := N.
Definition str := list char.

(** A literal whose characters are all ASCII. *)
Definition lit (s : string) : str := map N_of_ascii (list_ascii_of_string s).

(** [len(s)] *)
Definition len {A} (s : list A) : Z := Z.of_nat (List.length s).

(** [range(a, b)] *)
Definition range (a b : Z) : list Z :=
  map (fun n => a + Z.of_nat n) (seq 0 (Z.to_nat (b - a))).

(** [s[i:j]] for [0 <= i]; the slice is clamped at the end of [s]. *)
Definition slice {A} (s : list A) (i j : Z) : list A :=
  firstn (Z.to_nat (j - i)) (skipn (Z.to_nat i) s).

Fixpoint startswith (sub s : str) : bool :=
  match sub, s with
  | [], _ => true
  | _ :: _, [] => false
  | a :: sub', b :: s' => (a =? b)%N && startswith sub' s'
  end.

(** [sub in s] on strings: substring search. *)
Fixpoint str_in (sub s : str) : bool :=
  startswith sub s ||
  match s with
  | [] => false
  | _ :: t => str_in sub t
  end.

(** ** Exceptions *)

Inductive exn := IndexError | ZeroDivisionError | ValueError.

Inductive result (A : Type) : Type :=
| Ok (a : A)
| Raise (e : exn).
Arguments Ok {A} a.
Arguments Raise {A} e.

Definition bind {A B} (m : result A) (f : A -> result B) : result B :=
  match m with
  | Ok a => f a
  | Raise e => Raise e
  end.

Notation "x <- m ;; k" := (bind m (fun x => k))
  (at level 61, m at next level, right associativity).

(** [l[i]]: negative indices count from the end, anything outside raises. *)
Definition getitem {A} (l : list A) (i : Z) : result A :=
  let j := if i <? 0 then i + len l else i in
  if (0 <=? j) && (j <? len l) then
    match nth_error l (Z.to_nat j) with
    | Some a => Ok a
    | None => Raise IndexError
    end
  else Raise IndexError.

(** [a / b] on integers.  The quotient is kept exact; Python rounds it to
    a double, which does not change the comparison with [0.4] made below
    for any string that fits in memory. *)
Definition truediv (a b : Z) : result Q :=
  if b =? 0 then Raise ZeroDivisionError else Ok (a # Z.to_pos b)%Q.

Definition Qgt_bool (x y : Q) : bool := negb (Qle_bool x y).

(** A [for] loop whose body may raise. *)
Fixpoint for_each {S A} (xs : list A) (body : A -> S -> result S) (s : S)
  : result S :=
  match xs with
  | [] => Ok s
  | x :: xs' => s' <- body x s ;; for_each xs' body s'
  end.

(** ** The Unicode character database *)

Class Unicode := {
  islower : char -> bool;     (* c.islower() *)
  isupper : char -> bool;     (* c.isupper() *)
  isdigit : char -> bool;     (* c.isdigit() *)
  isdecimal : char -> bool;   (* the class \d of re *)
  isalnum : char -> bool;     (* c.isalnum(), the class \w without '_' *)
  lower : str -> str          (* s.lower() *)
}.

Definition in_range (lo hi c : N) : bool := ((lo <=? c) && (c <=? hi))%N.

Definition is_ascii (c : char) : bool := (c <? 128)%N.
Definition ascii_islower (c : char) : bool := in_range 97 122 c.
Definition ascii_isupper (c : char) : bool := in_range 65 90 c.
Definition ascii_isdigit (c : char) : bool := in_range 48 57 c.
Definition ascii_isalnum (c : char) : bool :=
  ascii_isdigit c || ascii_isupper c || ascii_islower c.
Definition ascii_lower (c : char) : char :=
  if ascii_isupper c then (c + 32)%N else c.
Definition ascii_upper (c : char) : char :=
  if ascii_islower c then (c - 32)%N else c.

(** What the proofs use of the database: on ASCII it is the familiar one,
    and lowering is idempotent and leaves no [A]..[Z] behind. *)
Record UnicodeLaws (U : Unicode) : Prop := {
  islower_ascii : forall c, is_ascii c = true -> islower c = ascii_islower c;
  isupper_ascii : forall c, is_ascii c = true -> isupper c = ascii_isupper c;
  isdigit_ascii : forall c, is_ascii c = true -> isdigit c = ascii_isdigit c;
  isdecimal_ascii :
    forall c, is_ascii c = true -> isdecimal c = ascii_isdigit c;
  isalnum_ascii : forall c, is_ascii c = true -> isalnum c = ascii_isalnum c;
  lower_ascii :
    forall s, forallb is_ascii s = true -> lower s = map ascii_lower s;
  lower_idem : forall s, lower (lower s) = lower s;
  lower_no_upper : forall s c, In c (lower s) -> ascii_isupper c = false
}.

(** The database on the Latin-1 range.  Code points above U+00FF are
    reported as caseless and non-numeric, so this instance stands for
    Python only on strings within U+0000..U+00FF. *)
Definition latin1_islower (c : char) : bool :=
  in_range 97 122 c || (c =? 170)%N || (c =? 181)%N || (c =? 186)%N
  || in_range 223 246 c || in_range 248 255 c.
Definition latin1_isupper (c : char) : bool :=
  in_range 65 90 c || in_range 192 214 c || in_range 216 222 c.
Definition latin1_isdigit (c : char) : bool :=
  in_range 48 57 c || in_range 178 179 c || (c =? 185)%N.
Definition latin1_isdecimal (c : char) : bool := in_range 48 57 c.
Definition latin1_isalnum (c : char) : bool :=
  in_range 48 57 c || in_range 65 90 c || in_range 97 122 c
  || (c =? 170)%N || in_range 178 179 c || (c =? 181)%N
  || in_range 185 186 c || in_range 188 190 c
  || in_range 192 214 c || in_range 216 246 c || in_range 248 255 c.
Definition latin1_lower_char (c : char) : char :=
  if latin1_isupper c then (c + 32)%N else c.

Definition Latin1 : Unicode := {|
  islower := latin1_islower;
  isupper := latin1_isupper;
  isdigit := latin1_isdigit;
  isdecimal := latin1_isdecimal;
  isalnum := latin1_isalnum;
  lower := map latin1_lower_char
|}.

(** ** Regular expressions

    The two patterns of the source use literals, classes, alternation,
    [?], [{2}] and [\b].  [re_match r prev s k] holds when [r] matches a
    prefix of [s] after which the continuation [k] succeeds; [prev] is the
    character before [s], which [\b] looks at. *)

Inductive regex :=
| Eps
| Cls (p : char -> bool)
| Cat (a b : regex)
| Alt (a b : regex)
| Opt (a : regex)
| WordB.

Definition Chr (c : char) : regex := Cls (N.eqb c).

Fixpoint Lit (s : str) : regex :=
  match s with
  | [] => Eps
  | c :: t => Cat (Chr c) (Lit t)
  end.

Fixpoint Rep (n : nat) (a : regex) : regex :=
  match n with
  | O => Eps
  | S n' => Cat a (Rep n' a)
  end.

Section Regex.
Context {U : Unicode}.

(** [\w] *)
Definition is_word (c : option char) : bool :=
  match c with
  | Some c => isalnum c || (c =? 95)%N
  | None => false
  end.

Fixpoint re_match (r : regex) (prev : option char) (s : str)
         (k : option char -> str -> bool) : bool :=
  match r with
  | Eps => k prev s
  | Cls p =>
      match s with
      | c :: t => p c && k (Some c) t
      | [] => false
      end
  | Cat a b => re_match a prev s (fun prev' s' => re_match b prev' s' k)
  | Alt a b => re_match a prev s k || re_match b prev s k
  | Opt a => re_match a prev s k || k prev s
  | WordB => xorb (is_word prev) (is_word (hd_error s)) && k prev s
  end.

Fixpoint search_from (r : regex) (prev : option char) (s : str) : bool :=
  re_match r prev s (fun _ _ => true) ||
  match s with
  | [] => false
  | c :: t => search_from r (Some c) t
  end.

(** [re.search(r, s)] as a truth value. *)
Definition re_search (r : regex) (s : str) : bool := search_from r None s.
End Regex.

(** ** The scorer *)

(** [SYMBOLS]: a raw string, so every backslash of the source text is a
    character of the string. *)
Definition SYMBOLS : str :=
  lit "!@#$%^&*()_+\-=\[\]{};':\" ++ [34%N] ++ lit ",.<>/?\\|`~".

Definition COMMON_PATTERNS : list str :=
  map lit
    ["password"; "qwerty"; "abc"; "abcd"; "abc123"; "letmein"; "admin";
     "welcome"; "iloveyou"; "dragon"; "monkey"; "football"; "baseball";
     "123"; "1234"; "12345"; "123456"; "0000"; "1111"; "2222"]%string.

Definition score_length (pw : str) : Z :=
  if 16 <=? len pw then 30
  else if 12 <=? len pw then 20
  else if 8 <=? len pw then 10
  else Z.max 0 (len pw - 4).

(** [collections.Counter(pw)]: the counts, in order of first occurrence. *)
Fixpoint counter_add (c : char) (m : list (char * Z)) : list (char * Z) :=
  match m with
  | [] => [(c, 1)]
  | (k, v) :: t => if (k =? c)%N then (k, v + 1) :: t
                   else (k, v) :: counter_add c t
  end.

Definition Counter (pw : str) : list (char * Z) :=
  fold_left (fun m c => counter_add c m) pw [].

(** [counts.most_common(1)]: the first entry of greatest count, or
    nothing for an empty counter. *)
Definition most_common1 (m : list (char * Z)) : list (char * Z) :=
  match m with
  | [] => []
  | x :: t => [fold_left (fun best y => if snd best <? snd y then y else best)
                         t x]
  end.

(** The body of the loop over [i] in [penalty_repeats]; the state is
    [(penalty, streak)]. *)
Definition repeat_step (pw : str) (i : Z) (st : Z * Z) : result (Z * Z) :=
  let '(penalty, streak) := st in
  a <- getitem pw i ;;
  b <- getitem pw (i - 1) ;;
  if (a =? b)%N then Ok (penalty, streak + 1)
  else Ok (if 3 <=? streak then penalty + 2 * (streak - 2) else penalty, 1).

Definition penalty_repeats (pw : str) : result Z :=
  st <- for_each (range 1 (len pw)) (repeat_step pw) (0, 1) ;;
  let '(penalty, streak) := st in
  let penalty := if 3 <=? streak then penalty + 2 * (streak - 2)
                 else penalty in
  penalty <-
    match pw with
    | [] => Ok penalty
    | _ :: _ =>
        let counts := Counter pw in
        top <- getitem (most_common1 counts) 0 ;;
        let most := snd top in
        q <- truediv most (len pw) ;;
        Ok (if Qgt_bool q (4 # 10) then penalty + 5 else penalty)
    end ;;
  Ok (Z.min penalty 20).

Definition lowers : str := lit "abcdefghijklmnopqrstuvwxyz".
(** [lowers.upper()] *)
Definition uppers : str := map ascii_upper lowers.
Definition digits : str := lit "0123456789".
Definition seqs : list str :=
  [lowers; uppers; digits; rev lowers; rev uppers; rev digits].

Definition keyboard_rows : list str :=
  map lit ["qwerty"; "asdf"; "zxcv"; "1q2w3e"; "qaz"; "wasd"]%string.

(** [round(n * math.log2(c), 1)], in tenths of a bit.  [math.log2] raises
    on [c <= 0].  The value is the exact one: [t] is the nearest integer to
    [10 * n * log2 c] iff [2^(2t-1) <= c^(20n) < 2^(2t+1)], and a tie would
    need [c^(20n)] to be an odd power of two.  Python computes the product
    in double precision first, which this model does not follow. *)
Definition round1_mul_log2 (n c : Z) : result Z :=
  if c <=? 0 then Raise ValueError
  else Ok ((Z.log2 (c ^ (20 * n)) + 1) / 2).

Definition strength_label (score : Z) : str :=
  if 85 <=? score then lit "Very Strong " ++ [9989%N]
  else if 70 <=? score then lit "Strong " ++ [9989%N]
  else if 55 <=? score then lit "Medium " ++ [9888%N; 65039%N]
  else if 35 <=? score then lit "Weak " ++ [10060%N]
  else lit "Very Weak " ++ [10060%N].

Record Breakdown := {
  bd_length : Z;
  bd_variety : Z;
  bd_bonus : Z;
  bd_penalty_repeats : Z;
  bd_penalty_sequences : Z;
  bd_penalty_patterns : Z
}.

(** The dictionary [score_password] returns; [r_entropy_bits] is in tenths
    of a bit. *)
Record Result := {
  r_score : Z;
  r_label : str;
  r_entropy_bits : Z;
  r_breakdown : Breakdown;
  r_tips : list str
}.

(** The four character classes the scorer tells apart. *)
Inductive char_class := Lowercase | Uppercase | Digit | Symbol.

Section Scorer.
Context {U : Unicode}.

Definition has_lower (pw : str) : bool := existsb islower pw.
Definition has_upper (pw : str) : bool := existsb isupper pw.
Definition has_digit (pw : str) : bool := existsb isdigit pw.
Definition has_symbol (pw : str) : bool :=
  existsb (fun c => str_in [c] SYMBOLS) pw.

Definition score_variety (pw : str) : result Z :=
  let kinds := Z.b2z (has_lower pw) + Z.b2z (has_upper pw)
               + Z.b2z (has_digit pw) + Z.b2z (has_symbol pw) in
  getitem [0; 10; 18; 24; 30] kinds.

Definition penalty_sequences (pw : str) : Z :=
  let pw_low := lower pw in
  let penalty :=
    fold_left (fun penalty s =>
      fold_left (fun penalty k =>
        fold_left (fun penalty i =>
          if str_in (slice s i (i + k)) pw_low then penalty + 3
          else penalty)
          (range 0 (len s - k + 1)) penalty)
        (range 4 8) penalty)
      seqs 0 in
  Z.min penalty 12.

(** [(19|20)\d{2}] *)
Definition year_re : regex :=
  Cat (Alt (Lit (lit "19")) (Lit (lit "20"))) (Rep 2 (Cls isdecimal)).

(** [\b(0?[1-9]|1[0-2])[-/\.]?(0?[1-9]|[12]\d|3[01])\b] *)
Definition date_re : regex :=
  Cat WordB
 (Cat (Alt (Cat (Opt (Chr 48%N)) (Cls (in_range 49%N 57%N)))
           (Cat (Chr 49%N) (Cls (in_range 48%N 50%N))))
 (Cat (Opt (Cls (fun c => str_in [c] (lit "-/."))))
 (Cat (Alt (Cat (Opt (Chr 48%N)) (Cls (in_range 49%N 57%N)))
      (Alt (Cat (Cls (fun c => str_in [c] (lit "12"))) (Cls isdecimal))
           (Cat (Chr 51%N) (Cls (fun c => str_in [c] (lit "01"))))))
      WordB))).

Definition penalty_common_patterns (pw : str) : Z :=
  let pw_low := lower pw in
  let pen :=
    fold_left (fun pen pat => if str_in pat pw_low then pen + 6 else pen)
              COMMON_PATTERNS 0 in
  let pen :=
    fold_left (fun pen row =>
                 if str_in row pw_low || str_in (rev row) pw_low
                 then pen + 6 else pen)
              keyboard_rows pen in
  let pen := if re_search year_re pw_low then pen + 5 else pen in
  let pen := if re_search date_re pw_low then pen + 5 else pen in
  Z.min pen 20.

Definition bonus_strong_mix (pw : str) : result Z :=
  if 14 <=? len pw then
    v <- score_variety pw ;;
    Ok (if 24 <=? v then 10 else 0)
  else Ok 0.

Definition charset_size (pw : str) : Z :=
  let charset := 0 in
  let charset := if has_lower pw then charset + 26 else charset in
  let charset := if has_upper pw then charset + 26 else charset in
  let charset := if has_digit pw then charset + 10 else charset in
  let charset := if has_symbol pw then charset + len SYMBOLS else charset in
  charset.

Definition estimate_entropy_bits (pw : str) : result Z :=
  let charset := charset_size pw in
  if charset =? 0 then Ok 0
  else round1_mul_log2 (len pw) charset.

Definition tips (pw : str) : result (list str) :=
  let t := [] in
  let t := if len pw <? 12 then t ++ [lit "Use at least 12 characters."]
           else t in
  let t := if negb (has_lower pw) then t ++ [lit "Add lowercase letters."]
           else t in
  let t := if negb (has_upper pw) then t ++ [lit "Add uppercase letters."]
           else t in
  let t := if negb (has_digit pw) then t ++ [lit "Add digits."] else t in
  let t := if negb (has_symbol pw) then t ++ [lit "Add symbols."] else t in
  p_rep <- penalty_repeats pw ;;
  let t := if 0 <? p_rep
           then t ++ [lit "Avoid long repeats like 'aaa' or '!!!!'."]
           else t in
  let t := if 0 <? penalty_sequences pw
           then t ++ [lit "Avoid sequences like 'abcd' or '1234'."]
           else t in
  let t := if 0 <? penalty_common_patterns pw
           then t ++ [lit "Avoid common words, keyboard rows, or dates."]
           else t in
  let t := if len t =? 0
           then t ++ [lit "Nice! Consider a passphrase: 3" ++ [8211%N]
                      ++ lit "4 random words with a symbol."]
           else t in
  Ok t.

Definition score_password (pw : str) : result Result :=
  let s_len := score_length pw in
  s_var <- score_variety pw ;;
  p_rep <- penalty_repeats pw ;;
  let p_seq := penalty_sequences pw in
  let p_pat := penalty_common_patterns pw in
  bonus <- bonus_strong_mix pw ;;
  let raw := s_len + s_var + bonus - (p_rep + p_seq + p_pat) in
  let score := Z.max 0 (Z.min 100 raw) in
  entropy <- estimate_entropy_bits pw ;;
  t <- tips pw ;;
  Ok {| r_score := score;
        r_label := strength_label score;
        r_entropy_bits := entropy;
        r_breakdown :=
          {| bd_length := s_len; bd_variety := s_var; bd_bonus := bonus;
             bd_penalty_repeats := p_rep; bd_penalty_sequences := p_seq;
             bd_penalty_patterns := p_pat |};
        r_tips := t |}.

(** The source's three loops, over the four lowercase and digit sequences
    only. *)
Definition penalty_sequences_lower_only (pw : str) : Z :=
  let pw_low := lower pw in
  let penalty :=
    fold_left (fun penalty s =>
      fold_left (fun penalty k =>
        fold_left (fun penalty i =>
          if str_in (slice s i (i + k)) pw_low then penalty + 3
          else penalty)
          (range 0 (len s - k + 1)) penalty)
        (range 4 8) penalty)
      [lowers; digits; rev lowers; rev digits] 0 in
  Z.min penalty 12.

(** The four tests of [score_variety] and [estimate_entropy_bits]. *)
Definition in_class (k : char_class) (c : char) : bool :=
  match k with
  | Lowercase => islower c
  | Uppercase => isupper c
  | Digit => isdigit c
  | Symbol => str_in [c] SYMBOLS
  end.

Definition has_class (k : char_class) (pw : str) : bool :=
  existsb (in_class k) pw.

(** The entropy estimate as the specification words it: the symbol class
    is worth 32. *)
Definition entropy_spec (pw : str) : result Z :=
  let charset := 26 * Z.b2z (has_class Lowercase pw)
                 + 26 * Z.b2z (has_class Uppercase pw)
                 + 10 * Z.b2z (has_class Digit pw)
                 + 32 * Z.b2z (has_class Symbol pw) in
  if charset =? 0 then Ok 0 else round1_mul_log2 (len pw) charset.

End Scorer.

(** ** The report of [main] *)

(** [str(z)] for an integer [z]. *)
Definition str_of_int (z : Z) : str :=
  lit (NilZero.string_of_int (Z.to_int z)).

(** The line [main] prints for the breakdown [b]: the argument of its
    fourth [print]. *)
Definition breakdown_line (b : Breakdown) : str :=
  lit "Breakdown: length+variety+bonus = " ++ str_of_int (bd_length b)
  ++ lit " + " ++ str_of_int (bd_variety b)
  ++ lit " + " ++ str_of_int (bd_bonus b) ++ lit ", "
  ++ lit "penalties = -" ++ str_of_int (bd_penalty_repeats b)
  ++ lit "-" ++ str_of_int (- bd_penalty_sequences b)
  ++ lit "-" ++ str_of_int (- bd_penalty_patterns b).

(** ** Vocabulary of the statements *)

(** How many elements of [l] satisfy [f]. *)
Definition count {A} (f : A -> bool) (l : list A) : Z :=
  len (filter f l).

(** The windows [s[i:i+k]] the sequence penalizer looks for. *)
Definition windows (s : str) (k : Z) : list str :=
  map (fun i => slice s i (i + k)) (range 0 (len s - k + 1)).

Definition windows_of (s : str) : list str :=
  flat_map (windows s) (range 4 8).

(** The windows of length 4 to 7 of the alphabet, of the digits, and of
    both reversed. *)
Definition seq_windows : list str :=
  flat_map windows_of [lowers; digits; rev lowers; rev digits].

(** The windows of the two uppercase sequences. *)
Definition upper_windows : list str :=
  flat_map windows_of [uppers; rev uppers].

Definition starts_upper (w : str) : bool :=
  match w with
  | c :: _ => ascii_isupper c
  | [] => false
  end.

Definition clamp (x lo hi : Z) : Z := Z.max lo (Z.min hi x).

Definition breakdown_in_range (b : Breakdown) : Prop :=
  0 <= bd_length b <= 30 /\
  0 <= bd_variety b <= 30 /\
  (bd_bonus b = 0 \/ bd_bonus b = 10) /\
  0 <= bd_penalty_repeats b <= 20 /\
  0 <= bd_penalty_sequences b <= 12 /\
  0 <= bd_penalty_patterns b <= 20.

Definition labels : list str :=
  [lit "Very Strong " ++ [9989%N]; lit "Strong " ++ [9989%N];
   lit "Medium " ++ [9888%N; 65039%N]; lit "Weak " ++ [10060%N];
   lit "Very Weak " ++ [10060%N]].

Definition well_formed (r : Result) : Prop :=
  0 <= r_score r <= 100 /\
  In (r_label r) labels /\
  0 <= r_entropy_bits r /\
  breakdown_in_range (r_breakdown r) /\
  r_tips r <> [].

(** The label of the lowest tier: the words, a space and U+274C. *)
Definition very_weak : str := lit "Very Weak " ++ [10060%N].

(** What the scorer reports on the empty password, up to the label. *)
Definition empty_report (label : str) (r : Result) : Prop :=
  bd_length (r_breakdown r) = 0 /\
  bd_variety (r_breakdown r) = 0 /\
  bd_bonus (r_breakdown r) = 0 /\
  bd_penalty_repeats (r_breakdown r) = 0 /\
  bd_penalty_sequences (r_breakdown r) = 0 /\
  bd_penalty_patterns (r_breakdown r) = 0 /\
  r_entropy_bits r = 0 /\
  r_score r = 0 /\
  r_label r = label.

(** What the scorer reports on eight equal lowercase letters, up to the
    label. *)
Definition eight_a_report (label : str) (r : Result) : Prop :=
  bd_penalty_repeats (r_breakdown r) = Z.min (2 * (8 - 2) + 5) 20 /\
  bd_penalty_repeats (r_breakdown r) = 17 /\
  bd_length (r_breakdown r) = 10 /\
  bd_variety (r_breakdown r) = 10 /\
  bd_bonus (r_breakdown r) = 0 /\
  bd_penalty_sequences (r_breakdown r) = 0 /\
  bd_penalty_patterns (r_breakdown r) = 0 /\
  r_score r = 3 /\
  r_label r = label.

Definition ascii_str (s : str) : Prop := forallb is_ascii s = true.

Definition ascii_opt (c : option char) : Prop :=
  match c with
  | Some c => is_ascii c = true
  | None => True
  end.

(** Two patterns of the same shape whose classes agree on ASCII. *)
Inductive re_agree : regex -> regex -> Prop :=
| agree_eps : re_agree Eps Eps
| agree_cls p q :
    (forall c, is_ascii c = true -> p c = q c) -> re_agree (Cls p) (Cls q)
| agree_cat a a' b b' :
    re_agree a a' -> re_agree b b' -> re_agree (Cat a b) (Cat a' b')
| agree_alt a a' b b' :
    re_agree a a' -> re_agree b b' -> re_agree (Alt a b) (Alt a' b')
| agree_opt a a' : re_agree a a' -> re_agree (Opt a) (Opt a')
| agree_wordb : re_agree WordB WordB.

Fixpoint str_eqb (a b : str) : bool :=
  match a, b with
  | [], [] => true
  | x :: a', y :: b' => (x =? y)%N && str_eqb a' b'
  | _, _ => false
  end.

(** No string occurs twice in the list. *)
Fixpoint distinct (l : list str) : bool :=
  match l with
  | [] => true
  | x :: t => negb (existsb (str_eqb x) t) && distinct t
  end.

(** The number of character classes present, [kinds] in [score_variety]. *)
Definition kinds {U : Unicode} (pw : str) : Z :=
  Z.b2z (has_class Lowercase pw) + Z.b2z (has_class Uppercase pw)
  + Z.b2z (has_class Digit pw) + Z.b2z (has_class Symbol pw).

(** The labels of the four upper tiers. *)
Definition very_strong : str := lit "Very Strong " ++ [9989%N].
Definition strong : str := lit "Strong " ++ [9989%N].
Definition medium : str := lit "Medium " ++ [9888%N; 65039%N].
Definition weak : str := lit "Weak " ++ [10060%N].

(** The lengths of the maximal runs of equal characters of [prev :: rest],
    where the run of [prev] has [n] characters so far. *)
Fixpoint run_lengths (prev : char) (n : Z) (rest : str) : list Z :=
  match rest with
  | [] => [n]
  | c :: t => if (c =? prev)%N then run_lengths prev (n + 1) t
              else n :: run_lengths c 1 t
  end.

Definition runs (pw : str) : list Z :=
  match pw with
  | [] => []
  | c :: t => run_lengths c 1 t
  end.

(** What a run of [n] equal characters costs. *)
Definition run_cost (n : Z) : Z := if 3 <=? n then 2 * (n - 2) else 0.

Definition sumZ (l : list Z) : Z := fold_right Z.add 0 l.

Definition run_penalty (pw : str) : Z := sumZ (map run_cost (runs pw)).

(** How often [c] occurs in [pw]. *)
Definition occurrences (c : char) (pw : str) : Z := count (N.eqb c) pw.

(** Some character makes up more than 40% of the password. *)
Definition skewed (pw : str) : bool :=
  existsb (fun c => 2 * len pw <? 5 * occurrences c pw) pw.

(** The count recorded for [k] in a counter, 0 when there is none. *)
Definition counter_get (k : char) (m : list (char * Z)) : Z :=
  match find (fun e => (fst e =? k)%N) m with
  | Some e => snd e
  | None => 0
  end.

(** The windows of exactly four characters. *)
Definition four_windows : list str :=
  flat_map (fun s => windows s 4) [lowers; digits; rev lowers; rev digits].

(** [x in l] on a list of strings. *)
Definition mem_str (x : str) (l : list str) : bool := existsb (str_eqb x) l.

(** [s] contains 19 or 20 followed by two decimal digits. *)
Definition year_like {U : Unicode} (s : str) : Prop :=
  exists p a b q,
    (s = p ++ lit "19" ++ a :: b :: q \/ s = p ++ lit "20" ++ a :: b :: q) /\
    isdecimal a = true /\ isdecimal b = true.

(** Every match of [r] either is empty or starts with a character of
    [P]. *)
Fixpoint starts_or_skips (P : char -> Prop) (r : regex) : Prop :=
  match r with
  | Eps => True
  | Cls p => forall c, p c = true -> P c
  | Cat a b => starts_or_skips P a /\ starts_or_skips P b
  | Alt a b => starts_or_skips P a /\ starts_or_skips P b
  | Opt a => starts_or_skips P a
  | WordB => True
  end.

(** Every match of [r] starts with a character of [P]. *)
Fixpoint starts_with (P : char -> Prop) (r : regex) : Prop :=
  match r with
  | Eps => False
  | Cls p => forall c, p c = true -> P c
  | Cat a b => starts_with P a \/ (starts_or_skips P a /\ starts_with P b)
  | Alt a b => starts_with P a /\ starts_with P b
  | Opt a => False
  | WordB => False
  end.

(** The nine advisory strings of [tips]. *)
Definition tip_length : str := lit "Use at least 12 characters.".
Definition tip_lower : str := lit "Add lowercase letters.".
Definition tip_upper : str := lit "Add uppercase letters.".
Definition tip_digit : str := lit "Add digits.".
Definition tip_symbol : str := lit "Add symbols.".
Definition tip_repeats : str := lit "Avoid long repeats like 'aaa' or '!!!!'.".
Definition tip_sequences : str := lit "Avoid sequences like 'abcd' or '1234'.".
Definition tip_patterns : str :=
  lit "Avoid common words, keyboard rows, or dates.".
Definition tip_nice : str :=
  lit "Nice! Consider a passphrase: 3" ++ [8211%N]
  ++ lit "4 random words with a symbol.".

(** The list [tips] builds, as a function of its eight tests. *)
Definition tips_of (c1 c2 c3 c4 c5 c6 c7 c8 : bool) : list str :=
  let t := [] in
  let t := if c1 then t ++ [tip_length] else t in
  let t := if c2 then t ++ [tip_lower] else t in
  let t := if c3 then t ++ [tip_upper] else t in
  let t := if c4 then t ++ [tip_digit] else t in
  let t := if c5 then t ++ [tip_symbol] else t in
  let t := if c6 then t ++ [tip_repeats] else t in
  let t := if c7 then t ++ [tip_sequences] else t in
  let t := if c8 then t ++ [tip_patterns] else t in
  if len t =? 0 then t ++ [tip_nice] else t.

(** [t == [tip_nice]] *)
Definition is_only_nice (t : list str) : bool :=
  match t with
  | [x] => str_eqb x tip_nice
  | _ => false
  end.

(** The table of [tips_conditions], for one choice of the eight tests. *)
Definition tips_check (c1 c2 c3 c4 c5 c6 c7 c8 : bool) : bool :=
  let t := tips_of c1 c2 c3 c4 c5 c6 c7 c8 in
  Bool.eqb (mem_str tip_length t) c1 && Bool.eqb (mem_str tip_lower t) c2
  && Bool.eqb (mem_str tip_upper t) c3 && Bool.eqb (mem_str tip_digit t) c4
  && Bool.eqb (mem_str tip_symbol t) c5 && Bool.eqb (mem_str tip_repeats t) c6
  && Bool.eqb (mem_str tip_sequences t) c7
  && Bool.eqb (mem_str tip_patterns t) c8
  && Bool.eqb (mem_str tip_nice t)
              (negb (c1 || c2 || c3 || c4 || c5 || c6 || c7 || c8))
  && Bool.eqb (is_only_nice t) (mem_str tip_nice t)
  && (1 <=? len t) && (len t <=? 8).

(** [f] holds of both booleans. *)
Definition all_bool (f : bool -> bool) : bool := f true && f false.

(** All the windows the sequence penalizer looks for. *)
Definition all_windows : list str := flat_map windows_of seqs.

(** The four classes on ASCII: a-z, A-Z, 0-9 and the characters of
    [SYMBOLS]. *)
Definition ascii_in_class (k : char_class) (c : char) : bool :=
  match k with
  | Lowercase => ascii_islower c
  | Uppercase => ascii_isupper c
  | Digit => ascii_isdigit c
  | Symbol => str_in [c] SYMBOLS
  end.

(** ** The Latin-1 database is lawful *)

Ltac range_cases :=
  repeat match goal with
         | |- context [(?a <=? ?b)%N] => destruct (N.leb_spec a b); try lia
         | |- context [(?a <? ?b)%N] => destruct (N.ltb_spec a b); try lia
         | |- context [(?a =? ?b)%N] => destruct (N.eqb_spec a b); try lia
         | H : context [(?a <=? ?b)%N] |- _ =>
             destruct (N.leb_spec a b); try lia
         | H : context [(?a <? ?b)%N] |- _ =>
             destruct (N.ltb_spec a b); try lia
         end;
  simpl in *; try reflexivity; try discriminate; try lia.

Ltac unfold_classes :=
  unfold latin1_lower_char, latin1_islower, latin1_isupper, latin1_isdigit,
    latin1_isdecimal, latin1_isalnum, ascii_lower, ascii_upper,
    ascii_isalnum, ascii_islower, ascii_isupper, ascii_isdigit, is_ascii,
    in_range in *.

Lemma latin1_lower_char_ascii c :
  is_ascii c = true -> latin1_lower_char c = ascii_lower c.
Proof. unfold_classes; intros H; range_cases. Qed.

Lemma latin1_lower_char_idem c :
  latin1_lower_char (latin1_lower_char c) = latin1_lower_char c.
Proof. unfold_classes; range_cases. Qed.

Lemma latin1_lower_char_no_upper c :
  ascii_isupper (latin1_lower_char c) = false.
Proof. unfold_classes; range_cases. Qed.

Lemma ascii_lower_is_ascii c :
  is_ascii c = true -> is_ascii (ascii_lower c) = true.
Proof. unfold_classes; intros H; range_cases. Qed.

Lemma Latin1_laws : UnicodeLaws Latin1.
Proof.
  constructor; simpl.
  - intros c H; unfold_classes; range_cases.
  - intros c H; unfold_classes; range_cases.
  - intros c H; unfold_classes; range_cases.
  - intros c H; unfold_classes; range_cases.
  - intros c H; unfold_classes; range_cases.
  - intros s H. apply map_ext_in. intros c Hc.
    apply latin1_lower_char_ascii.
    rewrite forallb_forall in H. now apply H.
  - intros s. rewrite map_map. apply map_ext.
    intros c. apply latin1_lower_char_idem.
  - intros s c Hc. apply in_map_iff in Hc. destruct Hc as [x [<- _]].
    apply latin1_lower_char_no_upper.
Qed.

(** ** Indexing and loops *)

Lemma len_nonneg {A} (l : list A) : 0 <= len l.
Proof. unfold len; lia. Qed.

Lemma getitem_in_range {A} (l : list A) (i : Z) :
  0 <= i < len l -> exists a, getitem l i = Ok a.
Proof.
  intros Hi. unfold getitem.
  destruct (Z.ltb_spec i 0); [lia |].
  destruct (Z.leb_spec 0 i); [| lia].
  destruct (Z.ltb_spec i (len l)); [| lia]. simpl.
  destruct (nth_error l (Z.to_nat i)) eqn:E; [eauto |].
  apply nth_error_None in E. unfold len in Hi. lia.
Qed.

Lemma in_range_bounds a b i : In i (range a b) -> a <= i < b.
Proof.
  unfold range. rewrite in_map_iff. intros [n [<- Hn]].
  apply in_seq in Hn. lia.
Qed.

(** A loop whose body keeps an invariant and never raises, does not
    raise, and ends in a state where the invariant holds. *)
Lemma for_each_invariant {S A} (I : S -> Prop) (P : A -> Prop)
      (body : A -> S -> result S) :
  (forall x s, P x -> I s -> exists s', body x s = Ok s' /\ I s') ->
  forall xs s, Forall P xs -> I s ->
  exists s', for_each xs body s = Ok s' /\ I s'.
Proof.
  intros Hbody xs. induction xs as [| x xs IH]; intros s HP HI; simpl.
  - eauto.
  - inversion HP; subst.
    destruct (Hbody x s) as [s1 [E1 I1]]; auto.
    rewrite E1; simpl. now apply IH.
Qed.

(** ** Substring search *)

Lemma startswith_spec sub s :
  startswith sub s = true <-> exists q, s = sub ++ q.
Proof.
  revert s. induction sub as [| a sub IH]; intros s; simpl.
  - split; eauto.
  - destruct s as [| b s].
    + split; [discriminate | intros [q Hq]; discriminate].
    + rewrite andb_true_iff, N.eqb_eq, IH. split.
      * intros [-> [q ->]]. eauto.
      * intros [q Hq]. injection Hq as -> ->. eauto.
Qed.

(** [str_in sub s] holds exactly when [sub] occurs in [s]. *)
Lemma str_in_spec sub s :
  str_in sub s = true <-> exists p q, s = p ++ sub ++ q.
Proof.
  induction s as [| b s IH].
  - simpl. rewrite orb_false_r, startswith_spec. split.
    + intros [q Hq]. exists [], q. exact Hq.
    + intros [p [q Hq]]. destruct p; simpl in Hq; [eauto |discriminate].
  - cbn [str_in]. rewrite orb_true_iff, startswith_spec, IH. split.
    + intros [[q Hq] | [p [q Hq]]].
      * exists [], q. exact Hq.
      * exists (b :: p), q. simpl. now rewrite Hq.
    + intros [p [q Hq]]. destruct p as [| c p]; simpl in Hq.
      * left. eauto.
      * right. injection Hq as _ Hq. eauto.
Qed.

Lemma str_in_trans a b s :
  str_in a b = true -> str_in b s = true -> str_in a s = true.
Proof.
  rewrite !str_in_spec. intros [p1 [q1 ->]] [p2 [q2 ->]].
  exists (p2 ++ p1), (q1 ++ q2). now rewrite <- !app_assoc.
Qed.

Lemma str_in_head c w s : str_in (c :: w) s = true -> In c s.
Proof.
  rewrite str_in_spec. intros [p [q ->]].
  apply in_or_app. right. now left.
Qed.

Lemma str_in_singleton c s : str_in [c] s = existsb (N.eqb c) s.
Proof.
  induction s as [| b s IH]; [reflexivity |].
  cbn [str_in existsb]. rewrite IH. simpl. now rewrite andb_true_r.
Qed.

(** ** Accumulating loops *)

Lemma count_nonneg {A} (f : A -> bool) l : 0 <= count f l.
Proof. apply len_nonneg. Qed.

Lemma count_app {A} (f : A -> bool) l1 l2 :
  count f (l1 ++ l2) = count f l1 + count f l2.
Proof. unfold count, len. rewrite filter_app, length_app. lia. Qed.

Lemma count_cons {A} (f : A -> bool) x l :
  count f (x :: l) = Z.b2z (f x) + count f l.
Proof.
  unfold count, len. cbn [filter].
  destruct (f x); cbn [List.length Z.b2z]; lia.
Qed.

Lemma count_none {A} (f : A -> bool) l :
  (forall x, In x l -> f x = false) -> count f l = 0.
Proof.
  induction l as [| x l IH]; intros H; [reflexivity |].
  rewrite count_cons, H by now left.
  rewrite IH; [reflexivity |]. intros y Hy. apply H. now right.
Qed.

(** [for x in l: if f(x): acc += w] *)
Lemma fold_add_count {A} (f : A -> bool) (w : Z) l acc :
  fold_left (fun acc x => if f x then acc + w else acc) l acc
  = acc + w * count f l.
Proof.
  revert acc. induction l as [| x l IH]; intros acc; simpl.
  - unfold count, len; simpl. lia.
  - rewrite IH, count_cons. destruct (f x); cbn [Z.b2z]; lia.
Qed.

Lemma fold_nested {A B} (g : A -> list B) (step : Z -> B -> Z) l acc :
  fold_left (fun acc x => fold_left step (g x) acc) l acc
  = fold_left step (flat_map g l) acc.
Proof.
  revert acc. induction l as [| x l IH]; intros acc; simpl; [reflexivity |].
  now rewrite fold_left_app, IH.
Qed.

Lemma fold_left_map_in {A B} (step : Z -> B -> Z) (g : A -> B) l acc :
  fold_left (fun acc x => step acc (g x)) l acc
  = fold_left step (map g l) acc.
Proof.
  revert acc. induction l as [| x l IH]; intros acc; simpl; auto.
Qed.

Lemma fold_left_pointwise {A} (f g : Z -> A -> Z) l acc :
  (forall a x, f a x = g a x) -> fold_left f l acc = fold_left g l acc.
Proof.
  intros H. revert acc.
  induction l as [| x l IH]; intros acc; simpl; [reflexivity |].
  now rewrite H, IH.
Qed.

(** ** The sub-scorers return, within their ranges *)

Lemma score_length_range pw : 0 <= score_length pw <= 30.
Proof.
  unfold score_length. pose proof (len_nonneg pw).
  destruct (Z.leb_spec 16 (len pw)); [lia |].
  destruct (Z.leb_spec 12 (len pw)); [lia |].
  destruct (Z.leb_spec 8 (len pw)); lia.
Qed.

Lemma counter_add_nonempty c m : counter_add c m <> [].
Proof.
  destruct m as [| [k v] t]; simpl; [discriminate |].
  destruct (k =? c)%N; discriminate.
Qed.

Lemma Counter_nonempty c pw : Counter (c :: pw) <> [].
Proof.
  unfold Counter. simpl. generalize [(c, 1)] (@nil_cons _ (c, 1) []).
  induction pw as [| d pw IH]; intros m Hm; simpl.
  - congruence.
  - apply IH. intros E. symmetry in E. revert E. apply counter_add_nonempty.
Qed.

Lemma most_common1_nonempty m :
  m <> [] -> exists x, getitem (most_common1 m) 0 = Ok x.
Proof.
  destruct m as [| x t]; [congruence |]. intros _.
  eexists. unfold most_common1. reflexivity.
Qed.

Lemma repeat_step_ok pw i st :
  1 <= i < len pw -> 0 <= fst st ->
  exists st', repeat_step pw i st = Ok st' /\ 0 <= fst st'.
Proof.
  intros Hi Hp. destruct st as [p k]. unfold repeat_step.
  destruct (getitem_in_range pw i ltac:(lia)) as [a ->].
  destruct (getitem_in_range pw (i - 1) ltac:(lia)) as [b ->].
  cbn [bind fst] in *.
  destruct (a =? b)%N; eexists; split; try reflexivity; cbn [fst]; [lia |].
  destruct (Z.leb_spec 3 k); lia.
Qed.

Lemma penalty_repeats_range pw :
  exists v, penalty_repeats pw = Ok v /\ 0 <= v <= 20.
Proof.
  unfold penalty_repeats.
  assert (Hloop : exists st, for_each (range 1 (len pw)) (repeat_step pw)
                               (0, 1) = Ok st /\ 0 <= fst st).
  { apply for_each_invariant with (P := fun i => 1 <= i < len pw).
    - intros; now apply repeat_step_ok.
    - apply Forall_forall. intros i Hi. now apply in_range_bounds.
    - cbn [fst]; lia. }
  destruct Hloop as [[p k] [E Hp]].
  rewrite E. cbn [bind]. cbn [fst] in Hp.
  set (p' := if 3 <=? k then p + 2 * (k - 2) else p).
  assert (Hp' : 0 <= p').
  { subst p'. destruct (Z.leb_spec 3 k); lia. }
  destruct pw as [| c pw].
  - cbn [bind]. eexists; split; [reflexivity | lia].
  - destruct (most_common1_nonempty (Counter (c :: pw))
                (Counter_nonempty c pw)) as [top ->]. cbn [bind].
    unfold truediv.
    destruct (Z.eqb_spec (len (c :: pw)) 0) as [E0 | _].
    { unfold len in E0. simpl in E0. lia. }
    cbn [bind]. eexists; split; [reflexivity |].
    destruct (Qgt_bool _ _); lia.
Qed.

(** The three nested loops of the sequence penalizer add 3 for each
    window, of each sequence of [ss], that occurs in [pw_low]. *)
Lemma scan_count (ss : list str) (pw_low : str) :
  fold_left (fun penalty s =>
      fold_left (fun penalty k =>
        fold_left (fun penalty i =>
          if str_in (slice s i (i + k)) pw_low then penalty + 3
          else penalty)
          (range 0 (len s - k + 1)) penalty)
        (range 4 8) penalty)
      ss 0
  = 3 * count (fun w => str_in w pw_low) (flat_map windows_of ss).
Proof.
  rewrite (fold_left_pointwise _
             (fun acc s =>
                fold_left (fun acc w => if str_in w pw_low then acc + 3
                                        else acc) (windows_of s) acc)).
  - rewrite fold_nested, fold_add_count. lia.
  - intros acc s. unfold windows_of. rewrite <- fold_nested.
    apply fold_left_pointwise. intros a k. unfold windows.
    now rewrite <- fold_left_map_in.
Qed.

Lemma str_eqb_refl a : str_eqb a a = true.
Proof.
  induction a as [| x a IH]; simpl; [reflexivity |].
  now rewrite N.eqb_refl.
Qed.

Lemma distinct_NoDup l : distinct l = true -> NoDup l.
Proof.
  induction l as [| x t IH]; simpl; intros H; constructor.
  - apply andb_true_iff in H. destruct H as [H _].
    apply negb_true_iff in H. intros Hin.
    assert (E : existsb (str_eqb x) t = true).
    { apply existsb_exists. exists x. split; [exact Hin |].
      apply str_eqb_refl. }
    congruence.
  - apply IH. now apply andb_true_iff in H.
Qed.

Lemma seq_windows_NoDup : NoDup seq_windows.
Proof. apply distinct_NoDup. vm_compute. reflexivity. Qed.

Section ScorerFacts.
Context {U : Unicode}.

Lemma score_variety_cases pw :
  exists v, score_variety pw = Ok v /\
            (v = 0 \/ v = 10 \/ v = 18 \/ v = 24 \/ v = 30).
Proof.
  unfold score_variety.
  destruct (has_lower pw), (has_upper pw), (has_digit pw), (has_symbol pw);
    eexists; (split; [reflexivity | lia]).
Qed.

Lemma bonus_strong_mix_cases pw :
  exists b, bonus_strong_mix pw = Ok b /\ (b = 0 \/ b = 10).
Proof.
  unfold bonus_strong_mix.
  destruct (14 <=? len pw); [| eauto].
  destruct (score_variety_cases pw) as [v [-> _]]. cbn [bind].
  destruct (24 <=? v); eauto.
Qed.

Lemma penalty_sequences_count pw :
  penalty_sequences pw
  = Z.min (3 * count (fun w => str_in w (lower pw)) (flat_map windows_of seqs))
          12.
Proof. unfold penalty_sequences. now rewrite scan_count. Qed.

Lemma penalty_sequences_range pw : 0 <= penalty_sequences pw <= 12.
Proof.
  rewrite penalty_sequences_count.
  pose proof (count_nonneg (fun w => str_in w (lower pw))
                           (flat_map windows_of seqs)). lia.
Qed.

Lemma penalty_common_patterns_range pw :
  0 <= penalty_common_patterns pw <= 20.
Proof.
  unfold penalty_common_patterns. rewrite !fold_add_count.
  pose proof (count_nonneg (fun pat => str_in pat (lower pw))
                           COMMON_PATTERNS).
  pose proof (count_nonneg
                (fun row => str_in row (lower pw)
                            || str_in (rev row) (lower pw)) keyboard_rows).
  destruct (re_search year_re (lower pw)),
           (re_search date_re (lower pw)); lia.
Qed.

Lemma charset_size_nonneg pw : 0 <= charset_size pw.
Proof.
  unfold charset_size.
  change (len SYMBOLS) with 37.
  destruct (has_lower pw), (has_upper pw), (has_digit pw), (has_symbol pw);
    lia.
Qed.

Lemma estimate_entropy_bits_ok pw :
  exists e, estimate_entropy_bits pw = Ok e /\ 0 <= e.
Proof.
  unfold estimate_entropy_bits, round1_mul_log2.
  pose proof (charset_size_nonneg pw).
  destruct (Z.eqb_spec (charset_size pw) 0); [eexists; split; eauto; lia |].
  destruct (Z.leb_spec (charset_size pw) 0); [lia |].
  eexists; split; [reflexivity |].
  apply Z.div_pos; [| lia].
  pose proof (Z.log2_nonneg (charset_size pw ^ (20 * len pw))). lia.
Qed.

Lemma tips_ok pw : exists t, tips pw = Ok t /\ t <> [].
Proof.
  unfold tips. destruct (penalty_repeats_range pw) as [p [-> _]].
  cbn [bind]. eexists; split; [reflexivity |].
  match goal with
  | |- (if len ?t =? 0 then _ else _) <> [] =>
      destruct (Z.eqb_spec (len t) 0) as [E | E];
      [ destruct t; discriminate
      | intros E'; apply E; rewrite E'; reflexivity ]
  end.
Qed.

End ScorerFacts.

(** ** The aggregate *)

Lemma strength_label_in_labels score : In (strength_label score) labels.
Proof.
  unfold strength_label, labels.
  destruct (85 <=? score); [now left |].
  destruct (70 <=? score); [now right; left |].
  destruct (55 <=? score); [now right; right; left |].
  destruct (35 <=? score); [now right; right; right; left |].
  now right; right; right; right; left.
Qed.

Section Aggregate.
Context {U : Unicode}.

Lemma score_password_unfold pw v p b e t :
  score_variety pw = Ok v -> penalty_repeats pw = Ok p ->
  bonus_strong_mix pw = Ok b -> estimate_entropy_bits pw = Ok e ->
  tips pw = Ok t ->
  score_password pw =
  Ok (let raw := score_length pw + v + b
                 - (p + penalty_sequences pw + penalty_common_patterns pw) in
      let score := Z.max 0 (Z.min 100 raw) in
      {| r_score := score;
         r_label := strength_label score;
         r_entropy_bits := e;
         r_breakdown :=
           {| bd_length := score_length pw; bd_variety := v; bd_bonus := b;
              bd_penalty_repeats := p;
              bd_penalty_sequences := penalty_sequences pw;
              bd_penalty_patterns := penalty_common_patterns pw |};
         r_tips := t |}).
Proof.
  intros Hv Hp Hb He Ht. unfold score_password.
  rewrite Hv, Hp, Hb, He, Ht. reflexivity.
Qed.

(** C1: the score is the clamped sum of the breakdown, and every field of
    the breakdown is within its range, for every password. *)
Theorem score_password_invariant (pw : str) :
  exists r,
    score_password pw = Ok r /\
    r_score r =
      clamp (bd_length (r_breakdown r) + bd_variety (r_breakdown r)
             + bd_bonus (r_breakdown r)
             - (bd_penalty_repeats (r_breakdown r)
                + bd_penalty_sequences (r_breakdown r)
                + bd_penalty_patterns (r_breakdown r))) 0 100 /\
    0 <= r_score r <= 100 /\
    breakdown_in_range (r_breakdown r).
Proof.
  destruct (score_variety_cases pw) as [v [Hv Hvr]].
  destruct (penalty_repeats_range pw) as [p [Hp Hpr]].
  destruct (bonus_strong_mix_cases pw) as [b [Hb Hbr]].
  destruct (estimate_entropy_bits_ok pw) as [e [He _]].
  destruct (tips_ok pw) as [t [Ht _]].
  eexists. split; [apply (score_password_unfold pw v p b e t); assumption |].
  cbn [r_score r_breakdown bd_length bd_variety bd_bonus bd_penalty_repeats
       bd_penalty_sequences bd_penalty_patterns].
  unfold clamp, breakdown_in_range.
  cbn [bd_length bd_variety bd_bonus bd_penalty_repeats
       bd_penalty_sequences bd_penalty_patterns].
  pose proof (score_length_range pw).
  pose proof (penalty_sequences_range pw).
  pose proof (penalty_common_patterns_range pw).
  repeat split; try lia.
Qed.

(** C7: no sub-scorer raises, and [score_password] returns a well-formed
    result, for every password. *)
Theorem score_password_total (pw : str) :
  (exists v, score_variety pw = Ok v) /\
  (exists p, penalty_repeats pw = Ok p) /\
  (exists b, bonus_strong_mix pw = Ok b) /\
  (exists e, estimate_entropy_bits pw = Ok e) /\
  (exists t, tips pw = Ok t) /\
  (exists r, score_password pw = Ok r /\ well_formed r).
Proof.
  destruct (score_variety_cases pw) as [v [Hv Hvr]].
  destruct (penalty_repeats_range pw) as [p [Hp Hpr]].
  destruct (bonus_strong_mix_cases pw) as [b [Hb Hbr]].
  destruct (estimate_entropy_bits_ok pw) as [e [He Hepos]].
  destruct (tips_ok pw) as [t [Ht Htne]].
  repeat (split; [eauto |]).
  eexists. split; [apply (score_password_unfold pw v p b e t); assumption |].
  unfold well_formed, breakdown_in_range.
  cbn [r_score r_label r_entropy_bits r_tips r_breakdown bd_length
       bd_variety bd_bonus bd_penalty_repeats bd_penalty_sequences
       bd_penalty_patterns].
  pose proof (score_length_range pw).
  pose proof (penalty_sequences_range pw).
  pose proof (penalty_common_patterns_range pw).
  repeat split; try lia; try assumption.
  apply strength_label_in_labels.
Qed.

End Aggregate.

(** ** ASCII passwords do not depend on the database

    Two lawful databases agree on every ASCII string, so an ASCII password
    can be scored with [Latin1]. *)

#[local] Hint Constructors re_agree : core.

Lemma re_agree_refl r : re_agree r r.
Proof. induction r; auto. Qed.

#[local] Hint Resolve re_agree_refl : core.

Lemma existsb_ext_in {A} (f g : A -> bool) l :
  (forall x, In x l -> f x = g x) -> existsb f l = existsb g l.
Proof.
  induction l as [| x l IH]; intros H; simpl; [reflexivity |].
  rewrite H by now left. rewrite IH; [reflexivity |].
  intros y Hy. apply H. now right.
Qed.

Lemma ascii_str_cons c s :
  ascii_str (c :: s) <-> is_ascii c = true /\ ascii_str s.
Proof. unfold ascii_str. simpl. apply andb_true_iff. Qed.

Lemma ascii_str_in s c : ascii_str s -> In c s -> is_ascii c = true.
Proof. unfold ascii_str. rewrite forallb_forall. auto. Qed.

Lemma ascii_str_lower s : ascii_str s -> ascii_str (map ascii_lower s).
Proof.
  unfold ascii_str. rewrite !forallb_forall. intros H c Hc.
  apply in_map_iff in Hc. destruct Hc as [x [<- Hx]].
  apply ascii_lower_is_ascii. auto.
Qed.

Section Agreement.
Variables U1 U2 : Unicode.
Hypothesis L1 : UnicodeLaws U1.
Hypothesis L2 : UnicodeLaws U2.

Lemma is_word_agree c :
  ascii_opt c -> is_word (U:=U1) c = is_word (U:=U2) c.
Proof.
  destruct c as [c |]; [| reflexivity]. simpl. intros Hc.
  now rewrite (isalnum_ascii U1 L1), (isalnum_ascii U2 L2).
Qed.

Lemma re_match_agree r1 r2 :
  re_agree r1 r2 ->
  forall prev s k1 k2,
    ascii_opt prev -> ascii_str s ->
    (forall prev' s', ascii_opt prev' -> ascii_str s' ->
                      k1 prev' s' = k2 prev' s') ->
    re_match (U:=U1) r1 prev s k1 = re_match (U:=U2) r2 prev s k2.
Proof.
  induction 1 as [| p q Hpq | a a' b b' _ IHa _ IHb | a a' b b' _ IHa _ IHb
                  | a a' _ IHa |]; intros prev s k1 k2 Hprev Hs Hk; simpl.
  - now apply Hk.
  - destruct s as [| c t]; [reflexivity |].
    apply ascii_str_cons in Hs. destruct Hs as [Hc Ht].
    rewrite Hpq by assumption. f_equal. now apply Hk.
  - apply IHa; auto.
  - f_equal; auto.
  - f_equal; auto.
  - f_equal; [| now apply Hk]. f_equal; apply is_word_agree; auto.
    destruct s as [| c t]; simpl; [exact I |].
    now apply ascii_str_cons in Hs.
Qed.

Lemma re_search_agree r1 r2 s :
  re_agree r1 r2 -> ascii_str s ->
  re_search (U:=U1) r1 s = re_search (U:=U2) r2 s.
Proof.
  intros Hr. unfold re_search. generalize (@None char) (I : ascii_opt None).
  induction s as [| c t IH]; intros prev Hprev Hs; simpl.
  - f_equal. apply re_match_agree; auto.
  - apply ascii_str_cons in Hs. destruct Hs as [Hc Ht].
    f_equal; [apply re_match_agree; auto; now apply ascii_str_cons |].
    now apply IH.
Qed.

Lemma year_re_agree : re_agree (year_re (U:=U1)) (year_re (U:=U2)).
Proof.
  unfold year_re. simpl. repeat constructor; auto;
    intros c Hc;
    now rewrite (isdecimal_ascii U1 L1), (isdecimal_ascii U2 L2).
Qed.

Lemma date_re_agree : re_agree (date_re (U:=U1)) (date_re (U:=U2)).
Proof.
  unfold date_re. repeat constructor; auto;
    intros c Hc;
    now rewrite (isdecimal_ascii U1 L1), (isdecimal_ascii U2 L2).
Qed.

Section OnePassword.
Variable pw : str.
Hypothesis Hpw : ascii_str pw.

Lemma lower_agree : lower (Unicode:=U1) pw = lower (Unicode:=U2) pw.
Proof. now rewrite (lower_ascii U1 L1), (lower_ascii U2 L2). Qed.

Lemma lower_ascii_str : ascii_str (lower (Unicode:=U2) pw).
Proof. rewrite (lower_ascii U2 L2) by assumption. now apply ascii_str_lower. Qed.

Lemma has_lower_agree : has_lower (U:=U1) pw = has_lower (U:=U2) pw.
Proof.
  apply existsb_ext_in. intros c Hc.
  pose proof (ascii_str_in pw c Hpw Hc).
  now rewrite (islower_ascii U1 L1), (islower_ascii U2 L2).
Qed.

Lemma has_upper_agree : has_upper (U:=U1) pw = has_upper (U:=U2) pw.
Proof.
  apply existsb_ext_in. intros c Hc.
  pose proof (ascii_str_in pw c Hpw Hc).
  now rewrite (isupper_ascii U1 L1), (isupper_ascii U2 L2).
Qed.

Lemma has_digit_agree : has_digit (U:=U1) pw = has_digit (U:=U2) pw.
Proof.
  apply existsb_ext_in. intros c Hc.
  pose proof (ascii_str_in pw c Hpw Hc).
  now rewrite (isdigit_ascii U1 L1), (isdigit_ascii U2 L2).
Qed.

Lemma score_variety_agree :
  score_variety (U:=U1) pw = score_variety (U:=U2) pw.
Proof.
  unfold score_variety.
  now rewrite has_lower_agree, has_upper_agree, has_digit_agree.
Qed.

Lemma penalty_sequences_agree :
  penalty_sequences (U:=U1) pw = penalty_sequences (U:=U2) pw.
Proof. unfold penalty_sequences. now rewrite lower_agree. Qed.

Lemma penalty_common_patterns_agree :
  penalty_common_patterns (U:=U1) pw = penalty_common_patterns (U:=U2) pw.
Proof.
  unfold penalty_common_patterns. rewrite lower_agree.
  rewrite (re_search_agree year_re year_re _ year_re_agree lower_ascii_str).
  rewrite (re_search_agree date_re date_re _ date_re_agree lower_ascii_str).
  reflexivity.
Qed.

Lemma estimate_entropy_bits_agree :
  estimate_entropy_bits (U:=U1) pw = estimate_entropy_bits (U:=U2) pw.
Proof.
  unfold estimate_entropy_bits, charset_size.
  now rewrite has_lower_agree, has_upper_agree, has_digit_agree.
Qed.

Lemma score_password_agree :
  score_password (U:=U1) pw = score_password (U:=U2) pw.
Proof.
  unfold score_password, bonus_strong_mix, tips.
  rewrite score_variety_agree, penalty_sequences_agree,
    penalty_common_patterns_agree, estimate_entropy_bits_agree,
    has_lower_agree, has_upper_agree, has_digit_agree.
  reflexivity.
Qed.

End OnePassword.
End Agreement.

(** ** Two fixed passwords *)

(** C4, as stated, fails: the label of the empty password is not the bare
    words. *)
Lemma empty_password_label_bare_fails :
  ~ (exists r, score_password (U:=Latin1) [] = Ok r /\
               empty_report (lit "Very Weak") r).
Proof.
  intros [r [E H]]. vm_compute in E. injection E as <-.
  unfold empty_report in H. decompose [and] H. discriminate.
Qed.

(** C4, amended: on the empty password every field of the breakdown, the
    entropy and the score are 0, and the label is the words Very Weak
    followed by a space and U+274C. *)
Theorem empty_password_report (U : Unicode) (HU : UnicodeLaws U) :
  exists r, score_password (U:=U) [] = Ok r /\ empty_report very_weak r.
Proof.
  rewrite (score_password_agree U Latin1 HU Latin1_laws [] eq_refl).
  eexists. split; [vm_compute; reflexivity |].
  unfold empty_report. repeat split.
Qed.

Lemma empty_password_report_witness :
  UnicodeLaws Latin1 /\
  exists r, score_password (U:=Latin1) [] = Ok r /\ empty_report very_weak r.
Proof.
  split; [exact Latin1_laws | exact (empty_password_report Latin1 Latin1_laws)].
Defined.

(** C5, as stated, fails for the same reason: the label is not the bare
    words. *)
Lemma eight_a_label_bare_fails :
  ~ (exists r, score_password (U:=Latin1) (lit "aaaaaaaa") = Ok r /\
               eight_a_report (lit "Very Weak") r).
Proof.
  intros [r [E H]]. vm_compute in E. injection E as <-.
  unfold eight_a_report in H. decompose [and] H. discriminate.
Qed.

(** C5, amended: on [aaaaaaaa] the repeat penalty is
    min(2*(8-2)+5, 20) = 17, the length score 10, the variety score 10,
    nothing else applies, the score is 3, and the label is the words Very
    Weak followed by a space and U+274C. *)
Theorem eight_a_report_holds (U : Unicode) (HU : UnicodeLaws U) :
  exists r, score_password (U:=U) (lit "aaaaaaaa") = Ok r /\
            eight_a_report very_weak r.
Proof.
  rewrite (score_password_agree U Latin1 HU Latin1_laws
             (lit "aaaaaaaa") eq_refl).
  eexists. split; [vm_compute; reflexivity |].
  unfold eight_a_report. repeat split.
Qed.

Lemma eight_a_report_witness :
  UnicodeLaws Latin1 /\
  exists r, score_password (U:=Latin1) (lit "aaaaaaaa") = Ok r /\
            eight_a_report very_weak r.
Proof.
  split; [exact Latin1_laws | exact (eight_a_report_holds Latin1 Latin1_laws)].
Defined.

(** ** The sequence penalizer *)

Section Sequences.
Context {U : Unicode}.

Lemma upper_windows_start_upper :
  forallb starts_upper upper_windows = true.
Proof. vm_compute. reflexivity. Qed.

Hypothesis HU : UnicodeLaws U.

(** A window that starts with a capital does not occur in a lowered
    string. *)
Lemma upper_window_absent pw w :
  In w upper_windows -> str_in w (lower pw) = false.
Proof.
  intros Hw.
  pose proof upper_windows_start_upper as Hup.
  rewrite forallb_forall in Hup. specialize (Hup w Hw).
  destruct w as [| c w]; [discriminate |]. simpl in Hup.
  destruct (str_in (c :: w) (lower pw)) eqn:E; [| reflexivity].
  apply str_in_head in E.
  rewrite (lower_no_upper U HU pw c E) in Hup. discriminate.
Qed.

Lemma count_all_windows pw :
  count (fun w => str_in w (lower pw)) (flat_map windows_of seqs)
  = count (fun w => str_in w (lower pw)) seq_windows.
Proof.
  assert (Hup : count (fun w => str_in w (lower pw)) upper_windows = 0).
  { apply count_none. intros w. apply upper_window_absent. }
  revert Hup. unfold seqs, seq_windows, upper_windows.
  cbn [flat_map]. rewrite !count_app.
  change (count (fun w => str_in w (lower pw)) []) with 0. lia.
Qed.

Lemma penalty_sequences_lower_only_eq pw :
  penalty_sequences pw = penalty_sequences_lower_only pw.
Proof.
  unfold penalty_sequences, penalty_sequences_lower_only.
  rewrite !scan_count. now rewrite count_all_windows.
Qed.

(** C6: the penalty is 3 for each alphabet or digit window of length 4 to
    7, forward or reversed, that occurs in the lowered password, at most
    12; the windows are pairwise distinct and each is counted by itself,
    overlapping or not, as on [abcdefgh], where 14 windows occur and the
    penalty is 12. *)
Theorem penalty_sequences_windows (pw : str) :
  NoDup seq_windows /\
  penalty_sequences pw
  = Z.min (3 * count (fun w => str_in w (lower pw)) seq_windows) 12 /\
  count (fun w => str_in w (lower (lit "abcdefgh"))) seq_windows = 14 /\
  penalty_sequences (lit "abcdefgh") = 12.
Proof.
  assert (Hgen : forall p,
             penalty_sequences p
             = Z.min (3 * count (fun w => str_in w (lower p)) seq_windows)
                     12).
  { intros p. rewrite penalty_sequences_count. now rewrite count_all_windows. }
  assert (H14 : count (fun w => str_in w (lower (lit "abcdefgh")))
                      seq_windows = 14).
  { rewrite (lower_ascii U HU) by reflexivity. vm_compute. reflexivity. }
  split; [exact seq_windows_NoDup |].
  split; [apply Hgen |]. split; [exact H14 |].
  rewrite Hgen, H14. reflexivity.
Qed.

(** C9: the penalty of a password is the penalty of its lowered form, and
    the uppercase sequences add nothing: the scan of the four lowercase
    and digit sequences gives the same penalty. *)
Theorem penalty_sequences_case_blind (pw : str) :
  penalty_sequences pw = penalty_sequences (lower pw) /\
  count (fun w => str_in w (lower pw)) upper_windows = 0 /\
  penalty_sequences pw = penalty_sequences_lower_only pw.
Proof.
  split; [| split].
  - unfold penalty_sequences. now rewrite (lower_idem U HU).
  - apply count_none. intros w. apply upper_window_absent.
  - apply penalty_sequences_lower_only_eq.
Qed.

End Sequences.

Lemma penalty_sequences_windows_witness :
  UnicodeLaws Latin1 /\
  penalty_sequences (U:=Latin1) (lit "xyzABCDE9876")
  = Z.min (3 * count (fun w => str_in w
                                 (lower (Unicode:=Latin1)
                                        (lit "xyzABCDE9876")))
                     seq_windows) 12.
Proof.
  split; [exact Latin1_laws |].
  exact (proj1 (proj2 (penalty_sequences_windows (U:=Latin1) Latin1_laws
                         (lit "xyzABCDE9876")))).
Defined.

Lemma penalty_sequences_case_blind_witness :
  UnicodeLaws Latin1 /\
  penalty_sequences (U:=Latin1) (lit "xyzABCDE9876")
  = penalty_sequences (U:=Latin1)
      (lower (Unicode:=Latin1) (lit "xyzABCDE9876")) /\
  penalty_sequences (U:=Latin1) (lit "xyzABCDE9876")
  = penalty_sequences_lower_only (U:=Latin1) (lit "xyzABCDE9876").
Proof.
  split; [exact Latin1_laws |].
  pose proof (penalty_sequences_case_blind (U:=Latin1) Latin1_laws
                (lit "xyzABCDE9876")) as [H1 [_ H3]].
  split; assumption.
Defined.

(** ** Common patterns *)

Section Patterns.
Context {U : Unicode}.

(** C10: a password whose lowered form contains [123456] gets the full
    pattern penalty of 20: the entries [123], [1234], [12345] and [123456]
    of the list are all present, which is 24 before the cap. *)
Theorem penalty_common_patterns_123456 (pw : str) :
  str_in (lit "123456") (lower pw) = true ->
  24 <= 6 * count (fun pat => str_in pat (lower pw)) COMMON_PATTERNS /\
  penalty_common_patterns pw = 20.
Proof.
  intros H6.
  assert (H3 : str_in (lit "123") (lower pw) = true)
    by (apply (str_in_trans _ (lit "123456")); [reflexivity | exact H6]).
  assert (H4 : str_in (lit "1234") (lower pw) = true)
    by (apply (str_in_trans _ (lit "123456")); [reflexivity | exact H6]).
  assert (H5 : str_in (lit "12345") (lower pw) = true)
    by (apply (str_in_trans _ (lit "123456")); [reflexivity | exact H6]).
  assert (Hc : 24 <= 6 * count (fun pat => str_in pat (lower pw))
                                COMMON_PATTERNS).
  { change COMMON_PATTERNS with
      (firstn 13 COMMON_PATTERNS
       ++ [lit "123"; lit "1234"; lit "12345"; lit "123456"]
       ++ skipn 17 COMMON_PATTERNS).
    rewrite !count_app, !count_cons, H3, H4, H5, H6.
    pose proof (count_nonneg (fun pat => str_in pat (lower pw))
                             (firstn 13 COMMON_PATTERNS)).
    pose proof (count_nonneg (fun pat => str_in pat (lower pw))
                             (skipn 17 COMMON_PATTERNS)).
    pose proof (count_nonneg (fun pat => str_in pat (lower pw)) []).
    cbn [Z.b2z]. lia. }
  split; [exact Hc |].
  unfold penalty_common_patterns. rewrite !fold_add_count.
  pose proof (count_nonneg
                (fun row => str_in row (lower pw)
                            || str_in (rev row) (lower pw)) keyboard_rows).
  destruct (re_search year_re (lower pw)),
           (re_search date_re (lower pw)); lia.
Qed.

End Patterns.

Lemma penalty_common_patterns_123456_witness :
  str_in (lit "123456") (lower (Unicode:=Latin1) (lit "x123456")) = true /\
  penalty_common_patterns (U:=Latin1) (lit "x123456") = 20.
Proof.
  split; [reflexivity |].
  exact (proj2 (penalty_common_patterns_123456 (U:=Latin1) (lit "x123456")
                  eq_refl)).
Defined.

(** ** Character classes *)

Section Classes.
Context {U : Unicode}.

Lemma charset_size_classes pw :
  charset_size pw
  = 26 * Z.b2z (has_class Lowercase pw) + 26 * Z.b2z (has_class Uppercase pw)
    + 10 * Z.b2z (has_class Digit pw) + 37 * Z.b2z (has_class Symbol pw).
Proof.
  unfold charset_size. change (len SYMBOLS) with 37.
  change (has_class Lowercase pw) with (has_lower pw).
  change (has_class Uppercase pw) with (has_upper pw).
  change (has_class Digit pw) with (has_digit pw).
  change (has_class Symbol pw) with (has_symbol pw).
  destruct (has_lower pw), (has_upper pw), (has_digit pw), (has_symbol pw);
    reflexivity.
Qed.

Lemma no_class_no_kind pw :
  (forall c, In c pw -> forall k, in_class k c = false) ->
  forall k, has_class k pw = false.
Proof.
  intros H k. unfold has_class.
  destruct (existsb (in_class k) pw) eqn:E; [| reflexivity].
  apply existsb_exists in E. destruct E as [c [Hc Hk]].
  now rewrite (H c Hc k) in Hk.
Qed.

(** A password all of whose characters fail the four tests has variety
    score 0 and an entropy estimate of 0. *)
Lemma score_variety_no_class (pw : str) :
  (forall c, In c pw -> forall k, in_class k c = false) ->
  score_variety pw = Ok 0 /\ estimate_entropy_bits pw = Ok 0.
Proof.
  intros H. pose proof (no_class_no_kind pw H) as Hk.
  unfold estimate_entropy_bits. rewrite charset_size_classes.
  unfold score_variety.
  change (has_lower pw) with (has_class Lowercase pw).
  change (has_upper pw) with (has_class Uppercase pw).
  change (has_digit pw) with (has_class Digit pw).
  change (has_symbol pw) with (has_class Symbol pw).
  rewrite !Hk. split; reflexivity.
Qed.

Lemma has_class_app k pw c :
  has_class k (pw ++ [c]) = has_class k pw || in_class k c.
Proof.
  unfold has_class. rewrite existsb_app. simpl. now rewrite orb_false_r.
Qed.

(** C8: appending a character of a class the password lacks does not
    decrease the variety score (it raises it). *)
Theorem score_variety_append_missing (pw : str) (k : char_class) (c : char) :
  has_class k pw = false -> in_class k c = true ->
  exists a b, score_variety pw = Ok a /\
              score_variety (pw ++ [c]) = Ok b /\ a <= b /\ a < b.
Proof.
  intros Hmiss Hin. unfold score_variety.
  change has_lower with (has_class Lowercase).
  change has_upper with (has_class Uppercase).
  change has_digit with (has_class Digit).
  change has_symbol with (has_class Symbol).
  rewrite !has_class_app.
  destruct k; rewrite Hmiss, Hin;
    destruct (has_class Lowercase pw), (has_class Uppercase pw),
      (has_class Digit pw), (has_class Symbol pw),
      (in_class Lowercase c), (in_class Uppercase c),
      (in_class Digit c), (in_class Symbol c);
    do 2 eexists; (split; [reflexivity | split; [reflexivity | lia]]).
Qed.

End Classes.

Lemma score_variety_append_missing_witness :
  has_class (U:=Latin1) Digit (lit "abc") = false /\
  in_class (U:=Latin1) Digit 49%N = true /\
  exists a b, score_variety (U:=Latin1) (lit "abc") = Ok a /\
              score_variety (U:=Latin1) (lit "abc" ++ [49%N]) = Ok b /\
              a <= b /\ a < b.
Proof.
  split; [reflexivity |]. split; [reflexivity |].
  exact (score_variety_append_missing (U:=Latin1) (lit "abc") Digit 49%N
           eq_refl eq_refl).
Defined.

(** C3, as stated, fails: U+00E9 is outside the four ASCII classes, and
    the one-letter password made of it has variety score 10. *)
Lemma score_variety_ascii_only_fails :
  ~ (forall pw : str,
        (forall c, In c pw ->
                   ascii_islower c = false /\ ascii_isupper c = false /\
                   ascii_isdigit c = false /\ str_in [c] SYMBOLS = false) ->
        score_variety (U:=Latin1) pw = Ok 0).
Proof.
  intros H. specialize (H [233%N]).
  assert (E : score_variety (U:=Latin1) [233%N] = Ok 10) by reflexivity.
  rewrite H in E; [discriminate |].
  intros c [<- | []]. repeat split.
Qed.

(** ** The entropy estimate *)

(** C2 at a password of one symbol: [SYMBOLS] has 37 characters, 32 of
    them distinct, since the backslashes of the raw string are counted.
    The estimate is made with 37 and is 5.2 bits, where the size of the
    symbol set, 32, gives 5.0 bits. *)
Theorem estimate_entropy_bits_symbol :
  len SYMBOLS = 37 /\
  len (nodup N.eq_dec SYMBOLS) = 32 /\
  charset_size (U:=Latin1) (lit "!") = 37 /\
  estimate_entropy_bits (U:=Latin1) (lit "!") = Ok 52 /\
  entropy_spec (U:=Latin1) (lit "!") = Ok 50.
Proof. vm_compute. repeat split. Qed.

(** ** Further properties of the sub-scorers *)

(** X1: the length score does not decrease when the password gets
    longer. *)
Theorem score_length_monotone (a b : str) :
  len a <= len b -> score_length a <= score_length b.
Proof.
  intros H. unfold score_length.
  destruct (Z.leb_spec 16 (len a)), (Z.leb_spec 12 (len a)),
    (Z.leb_spec 8 (len a)), (Z.leb_spec 16 (len b)),
    (Z.leb_spec 12 (len b)), (Z.leb_spec 8 (len b)); lia.
Qed.

Lemma score_length_monotone_witness :
  len (lit "abcdefg") <= len (lit "abcdefgh") /\
  score_length (lit "abcdefg") <= score_length (lit "abcdefgh").
Proof.
  assert (H : len (lit "abcdefg") <= len (lit "abcdefgh"))
    by (vm_compute; discriminate).
  split; [exact H |].
  exact (score_length_monotone (lit "abcdefg") (lit "abcdefgh") H).
Defined.

Lemma strength_label_cases (score : Z) :
  (strength_label score = very_strong <-> 85 <= score) /\
  (strength_label score = strong <-> 70 <= score < 85) /\
  (strength_label score = medium <-> 55 <= score < 70) /\
  (strength_label score = weak <-> 35 <= score < 55) /\
  (strength_label score = very_weak <-> score < 35).
Proof.
  unfold strength_label.
  destruct (Z.leb_spec 85 score); [| destruct (Z.leb_spec 70 score);
    [| destruct (Z.leb_spec 55 score); [| destruct (Z.leb_spec 35 score)]]];
    repeat match goal with
           | |- _ /\ _ => split
           | |- _ <-> _ => split
           end;
    intros E;
    first [ lia | reflexivity | exfalso; vm_compute in E; discriminate E ].
Qed.

(** X2: each label stands for one band of scores: 85 and more, 70 to 84,
    55 to 69, 35 to 54, and less than 35. *)
Theorem strength_label_bands (score : Z) :
  (strength_label score = very_strong <-> 85 <= score) /\
  (strength_label score = strong <-> 70 <= score < 85) /\
  (strength_label score = medium <-> 55 <= score < 70) /\
  (strength_label score = weak <-> 35 <= score < 55) /\
  (strength_label score = very_weak <-> score < 35).
Proof. exact (strength_label_cases score). Qed.

Section Further.
Context {U : Unicode}.

Lemma has_class_incl k pw pw' :
  incl pw pw' -> has_class k pw = true -> has_class k pw' = true.
Proof.
  unfold has_class. intros Hi H. apply existsb_exists in H.
  destruct H as [c [Hc Hk]]. apply existsb_exists. exists c. split; auto.
Qed.

Lemma score_variety_kinds pw :
  score_variety pw = getitem [0; 10; 18; 24; 30] (kinds pw).
Proof. reflexivity. Qed.

(** X3: the variety score depends only on which characters occur: if
    every character of [pw] occurs in [pw'], the variety score of [pw'] is
    at least that of [pw]. *)
Theorem score_variety_incl (pw pw' : str) :
  incl pw pw' ->
  exists a b, score_variety pw = Ok a /\ score_variety pw' = Ok b /\ a <= b.
Proof.
  intros Hi. rewrite !score_variety_kinds. unfold kinds.
  pose proof (has_class_incl Lowercase pw pw' Hi) as Hl.
  pose proof (has_class_incl Uppercase pw pw' Hi) as Hu.
  pose proof (has_class_incl Digit pw pw' Hi) as Hd.
  pose proof (has_class_incl Symbol pw pw' Hi) as Hs.
  destruct (has_class Lowercase pw), (has_class Uppercase pw),
    (has_class Digit pw), (has_class Symbol pw);
    try rewrite (Hl eq_refl); try rewrite (Hu eq_refl);
    try rewrite (Hd eq_refl); try rewrite (Hs eq_refl);
    destruct (has_class Lowercase pw'), (has_class Uppercase pw'),
      (has_class Digit pw'), (has_class Symbol pw');
    do 2 eexists; (split; [reflexivity | split; [reflexivity | lia]]).
Qed.

Lemma bonus_strong_mix_kinds (pw : str) :
  bonus_strong_mix pw
  = Ok (if (14 <=? len pw) && (3 <=? kinds pw) then 10 else 0).
Proof.
  unfold bonus_strong_mix. rewrite score_variety_kinds. unfold kinds.
  destruct (14 <=? len pw); [| reflexivity].
  destruct (has_class Lowercase pw), (has_class Uppercase pw),
    (has_class Digit pw), (has_class Symbol pw); reflexivity.
Qed.

(** X4: the bonus is 10 exactly when the password has at least 14
    characters and at least three of the four classes, and 0 otherwise. *)
Theorem bonus_strong_mix_iff (pw : str) :
  bonus_strong_mix pw
  = Ok (if (14 <=? len pw) && (3 <=? kinds pw) then 10 else 0).
Proof. exact (bonus_strong_mix_kinds pw). Qed.

(** X5: the score never exceeds 70 (30 for length, 30 for variety, 10 of
    bonus), so the label of the highest tier is never given. *)
Theorem score_password_at_most_70 (pw : str) :
  exists r, score_password pw = Ok r /\
            r_score r <= 70 /\ r_label r <> very_strong.
Proof.
  destruct (score_variety_cases pw) as [v [Hv Hvr]].
  destruct (penalty_repeats_range pw) as [p [Hp Hpr]].
  destruct (bonus_strong_mix_cases pw) as [b [Hb Hbr]].
  destruct (estimate_entropy_bits_ok pw) as [e [He _]].
  destruct (tips_ok pw) as [t [Ht _]].
  eexists. split; [apply (score_password_unfold pw v p b e t); assumption |].
  cbn [r_score r_label].
  pose proof (score_length_range pw).
  pose proof (penalty_sequences_range pw).
  pose proof (penalty_common_patterns_range pw).
  assert (Hs : Z.max 0 (Z.min 100
                 (score_length pw + v + b
                  - (p + penalty_sequences pw + penalty_common_patterns pw)))
               <= 70) by lia.
  split; [exact Hs |].
  intros E. apply strength_label_cases in E. lia.
Qed.

End Further.

(** The bound of 70 is reached. *)
Lemma score_70_reached :
  exists r, score_password (U:=Latin1) (lit "Zq7!Zq7!Zq7!Zq7!") = Ok r /\
            r_score r = 70 /\ r_label r = strong.
Proof. eexists. split; [vm_compute; reflexivity |]. split; reflexivity. Qed.

(** ** The repeat penalizer *)

Lemma range_cons a b : a < b -> range a b = a :: range (a + 1) b.
Proof.
  intros H. unfold range.
  replace (Z.to_nat (b - a)) with (S (Z.to_nat (b - (a + 1)))) by lia.
  cbn [seq map]. f_equal; [lia |].
  rewrite <- seq_shift, map_map. apply map_ext. intros n. lia.
Qed.

Lemma range_nil a b : b <= a -> range a b = [].
Proof.
  intros H. unfold range. now replace (Z.to_nat (b - a)) with O by lia.
Qed.

Lemma len_app {A} (a b : list A) : len (a ++ b) = len a + len b.
Proof. unfold len. rewrite length_app. lia. Qed.

Lemma len_cons {A} (x : A) (l : list A) : len (x :: l) = 1 + len l.
Proof. unfold len. cbn [List.length]. lia. Qed.

Lemma getitem_middle {A} (pre : list A) x post :
  getitem (pre ++ x :: post) (len pre) = Ok x.
Proof.
  unfold getitem. pose proof (len_nonneg pre).
  destruct (Z.ltb_spec (len pre) 0); [lia |].
  destruct (Z.leb_spec 0 (len pre)); [| lia].
  rewrite len_app, len_cons. pose proof (len_nonneg post).
  destruct (Z.ltb_spec (len pre) (len pre + (1 + len post))); [| lia].
  cbn [andb]. unfold len. rewrite Nat2Z.id.
  rewrite nth_error_app2 by lia. now rewrite Nat.sub_diag.
Qed.

Lemma len_snoc {A} (l : list A) x : len (l ++ [x]) = len l + 1.
Proof. rewrite len_app, len_cons. unfold len. simpl. lia. Qed.

Lemma repeat_step_middle pre prev c t p k :
  repeat_step (pre ++ prev :: c :: t) (len pre + 1) (p, k)
  = Ok (if (c =? prev)%N then (p, k + 1)
        else (if 3 <=? k then p + 2 * (k - 2) else p, 1)).
Proof.
  unfold repeat_step.
  assert (G1 : getitem (pre ++ prev :: c :: t) (len pre + 1) = Ok c).
  { pose proof (getitem_middle (pre ++ [prev]) c t) as G.
    rewrite <- app_assoc, len_snoc in G. exact G. }
  assert (G2 : getitem (pre ++ prev :: c :: t) (len pre + 1 - 1) = Ok prev).
  { replace (len pre + 1 - 1) with (len pre) by lia. apply getitem_middle. }
  rewrite G1, G2. cbn [bind]. now destruct (c =? prev)%N.
Qed.

(** The loop over the indices of [pre ++ prev :: rest], from the index of
    the first character of [rest] on, follows the runs of [rest]. *)
Lemma repeat_loop_runs rest :
  forall pre prev p k,
  exists p' k',
    for_each (range (len pre + 1) (len pre + 1 + len rest))
             (repeat_step (pre ++ prev :: rest)) (p, k) = Ok (p', k') /\
    p' + run_cost k' = p + sumZ (map run_cost (run_lengths prev k rest)).
Proof.
  induction rest as [| c t IH]; intros pre prev p k.
  - rewrite range_nil by (unfold len; simpl; lia).
    exists p, k. split; [reflexivity |]. simpl. lia.
  - rewrite range_cons by (pose proof (len_nonneg t); rewrite len_cons; lia).
    cbn [for_each]. rewrite repeat_step_middle. cbn [bind].
    replace (len pre + 1 + len (c :: t)) with (len pre + 1 + 1 + len t)
      by (rewrite len_cons; lia).
    cbn [run_lengths].
    destruct (N.eqb_spec c prev) as [-> | Hne].
    + destruct (IH (pre ++ [prev]) prev p (k + 1)) as [p' [k' [E Hs]]].
      rewrite <- app_assoc, len_snoc in E.
      exists p', k'. split; [exact E | exact Hs].
    + destruct (IH (pre ++ [prev]) c
                   (if 3 <=? k then p + 2 * (k - 2) else p) 1)
        as [p' [k' [E Hs]]].
      rewrite <- app_assoc, len_snoc in E.
      exists p', k'. split; [exact E |].
      rewrite Hs. cbn [map]. unfold sumZ. cbn [fold_right].
      generalize (fold_right Z.add 0 (map run_cost (run_lengths c 1 t))).
      intros rest_cost. unfold run_cost. destruct (3 <=? k); lia.
Qed.

Lemma counter_get_add k c m :
  counter_get k (counter_add c m) = counter_get k m + Z.b2z (c =? k)%N.
Proof.
  unfold counter_get. induction m as [| [k0 v0] t IH]; cbn [counter_add].
  - cbn [find fst snd]. destruct (c =? k)%N; reflexivity.
  - destruct (N.eqb_spec k0 c) as [-> | Hne]; cbn [find fst snd].
    + destruct (c =? k)%N; cbn [snd Z.b2z]; lia.
    + destruct (N.eqb_spec k0 k) as [-> | Hk]; [| exact IH].
      destruct (N.eqb_spec c k); [congruence | cbn [snd Z.b2z]; lia].
Qed.

Lemma counter_add_keys k c m :
  In k (map fst (counter_add c m)) <-> k = c \/ In k (map fst m).
Proof.
  induction m as [| [k0 v0] t IH]; cbn [counter_add].
  - simpl. intuition.
  - destruct (N.eqb_spec k0 c) as [-> | Hne]; cbn [map fst In].
    + intuition.
    + rewrite IH. intuition.
Qed.

Lemma counter_add_NoDup c m :
  NoDup (map fst m) -> NoDup (map fst (counter_add c m)).
Proof.
  induction m as [| [k0 v0] t IH]; cbn [counter_add]; intros H.
  - simpl. constructor; [intros [] | constructor].
  - cbn [map fst] in H. inversion H as [| ? ? Hnot Ht]; subst.
    destruct (N.eqb_spec k0 c) as [-> | Hne]; cbn [map fst].
    + now constructor.
    + constructor; [| now apply IH].
      rewrite counter_add_keys. intros [-> | Hin]; congruence.
Qed.

Lemma occurrences_snoc k s c :
  occurrences k (s ++ [c]) = occurrences k s + Z.b2z (k =? c)%N.
Proof.
  unfold occurrences. rewrite count_app, count_cons.
  change (count (N.eqb k) []) with 0. lia.
Qed.

(** The counter of a string holds each of its characters once, with the
    number of its occurrences. *)
Lemma Counter_spec pw :
  NoDup (map fst (Counter pw)) /\
  (forall k, counter_get k (Counter pw) = occurrences k pw) /\
  (forall k, In k (map fst (Counter pw)) <-> In k pw).
Proof.
  unfold Counter.
  assert (G : forall rest m s,
             NoDup (map fst m) /\
             (forall k, counter_get k m = occurrences k s) /\
             (forall k, In k (map fst m) <-> In k s) ->
             let m' := fold_left (fun m c => counter_add c m) rest m in
             NoDup (map fst m') /\
             (forall k, counter_get k m' = occurrences k (s ++ rest)) /\
             (forall k, In k (map fst m') <-> In k (s ++ rest))).
  { induction rest as [| c rest IH]; intros m s [Hn [Hg Hk]]; cbn [fold_left].
    - rewrite app_nil_r. auto.
    - replace (s ++ c :: rest) with ((s ++ [c]) ++ rest)
        by (now rewrite <- app_assoc).
      apply IH. split; [now apply counter_add_NoDup |]. split.
      + intros k. rewrite counter_get_add, occurrences_snoc, Hg.
        now rewrite N.eqb_sym.
      + intros k. rewrite counter_add_keys, in_app_iff, Hk. simpl.
        intuition. }
  apply (G pw [] []). split; [constructor |]. split; [reflexivity |].
  intros k. simpl. tauto.
Qed.

Lemma counter_get_in k v m :
  NoDup (map fst m) -> In (k, v) m -> counter_get k m = v.
Proof.
  unfold counter_get. induction m as [| [k0 v0] t IH]; intros Hn Hin.
  - destruct Hin.
  - cbn [map fst] in Hn. inversion Hn as [| ? ? Hnot Ht]; subst.
    cbn [find fst]. destruct Hin as [E | Hin].
    + injection E as -> ->. now rewrite N.eqb_refl.
    + destruct (N.eqb_spec k0 k) as [-> | Hk]; [| now apply IH].
      exfalso. apply Hnot. apply in_map_iff. now exists (k, v).
Qed.

Lemma most_common1_best (x : char * Z) (t : list (char * Z)) :
  let best := fold_left (fun best y => if snd best <? snd y then y else best)
                        t x in
  In best (x :: t) /\ forall y, In y (x :: t) -> snd y <= snd best.
Proof.
  revert x. induction t as [| z t IH]; intros x; cbn [fold_left].
  - split; [now left |]. intros y [<- | []]. lia.
  - specialize (IH (if snd x <? snd z then z else x)).
    cbv zeta in IH. destruct IH as [Hin Hmax]. split.
    + destruct Hin as [E | Hin]; [| now right; right].
      rewrite <- E. destruct (snd x <? snd z); [right; now left | now left].
    + intros y Hy.
      assert (Hxz : snd x <= snd (if snd x <? snd z then z else x) /\
                    snd z <= snd (if snd x <? snd z then z else x)).
      { destruct (Z.ltb_spec (snd x) (snd z)); lia. }
      pose proof (Hmax _ (or_introl eq_refl)) as H0.
      destruct Hy as [<- | [<- | Hy]]; [lia | lia |].
      apply Hmax. now right.
Qed.

(** For a non-empty string, [counts.most_common(1)[0][1]] is the number of
    occurrences of one of its characters, and no character occurs more
    often. *)
Lemma most_common_spec c pw :
  exists top,
    getitem (most_common1 (Counter (c :: pw))) 0 = Ok top /\
    In (fst top) (c :: pw) /\
    snd top = occurrences (fst top) (c :: pw) /\
    forall d, In d (c :: pw) -> occurrences d (c :: pw) <= snd top.
Proof.
  destruct (Counter_spec (c :: pw)) as [Hn [Hg Hk]].
  pose proof (Counter_nonempty c pw) as Hne.
  destruct (Counter (c :: pw)) as [| x t] eqn:E; [congruence |].
  destruct (most_common1_best x t) as [Hin Hmax].
  unfold most_common1.
  set (best := fold_left (fun best y => if snd best <? snd y then y else best)
                         t x) in *.
  exists best. split; [reflexivity |].
  assert (Hbest : counter_get (fst best) (x :: t) = snd best).
  { apply counter_get_in; [exact Hn |]. now destruct best. }
  split; [| split].
  - apply Hk. apply in_map_iff. now exists best.
  - now rewrite <- Hg.
  - intros d Hd. apply Hk in Hd. apply in_map_iff in Hd.
    destruct Hd as [[d' v] [Ed Hd]]. simpl in Ed. subst d'.
    rewrite <- Hg, (counter_get_in d v (x :: t) Hn Hd).
    exact (Hmax (d, v) Hd).
Qed.

Lemma Qgt_bool_ratio most n :
  0 < n -> Qgt_bool (most # Z.to_pos n) (4 # 10) = (2 * n <? 5 * most).
Proof.
  intros Hn. unfold Qgt_bool, Qle_bool. cbn [Qnum Qden].
  rewrite Z2Pos.id by lia.
  destruct (Z.leb_spec (most * 10) (4 * n)), (Z.ltb_spec (2 * n) (5 * most));
    simpl; try reflexivity; lia.
Qed.

Lemma skew_test c pw top :
  In (fst top) (c :: pw) ->
  snd top = occurrences (fst top) (c :: pw) ->
  (forall d, In d (c :: pw) -> occurrences d (c :: pw) <= snd top) ->
  (2 * len (c :: pw) <? 5 * snd top) = skewed (c :: pw).
Proof.
  intros Hin Hocc Hmax. unfold skewed.
  destruct (Z.ltb_spec (2 * len (c :: pw)) (5 * snd top)) as [Hlt | Hge].
  - symmetry. apply existsb_exists. exists (fst top). split; [exact Hin |].
    apply Z.ltb_lt. now rewrite <- Hocc.
  - symmetry. apply not_true_is_false. intros H.
    apply existsb_exists in H. destruct H as [d [Hd Ht]].
    apply Z.ltb_lt in Ht. specialize (Hmax d Hd). lia.
Qed.

(** The repeat penalty is the cost of the maximal runs, the last one
    included, plus 5 when some character makes up more than 40% of the
    password, at most 20. *)
Lemma penalty_repeats_spec pw :
  penalty_repeats pw
  = Ok (Z.min (run_penalty pw + (if skewed pw then 5 else 0)) 20).
Proof.
  unfold penalty_repeats. destruct pw as [| c pw].
  - reflexivity.
  - destruct (repeat_loop_runs pw [] c 0 1) as [p [k [E Hs]]].
    change (len [] + 1) with 1 in E.
    replace (1 + len pw) with (len (c :: pw)) in E by (rewrite len_cons; lia).
    cbn [app] in E. rewrite E. cbn [bind].
    destruct (most_common_spec c pw) as [top [-> [Hin [Hocc Hmax]]]].
    cbn [bind]. unfold truediv.
    pose proof (len_nonneg pw) as Hl.
    destruct (Z.eqb_spec (len (c :: pw)) 0) as [E0 | _];
      [rewrite len_cons in E0; lia |].
    cbn [bind]. rewrite Qgt_bool_ratio by (rewrite len_cons; lia).
    rewrite (skew_test c pw top Hin Hocc Hmax).
    unfold run_penalty. cbn [runs]. f_equal. f_equal.
    unfold run_cost in Hs at 1. destruct (skewed (c :: pw)), (3 <=? k); lia.
Qed.

(** X6: the repeat penalty is the sum, over the maximal runs of equal
    characters, of 2 * (n - 2) for each run of n >= 3 characters (the run
    that ends the password included), plus 5 when some character makes up
    more than 40% of the password, capped at 20; the function never
    raises. *)
Theorem penalty_repeats_runs_and_skew (pw : str) :
  penalty_repeats pw
  = Ok (Z.min (run_penalty pw + (if skewed pw then 5 else 0)) 20).
Proof. exact (penalty_repeats_spec pw). Qed.

Lemma run_lengths_positive rest :
  forall prev n, 0 < n -> Forall (fun m => 0 < m) (run_lengths prev n rest).
Proof.
  induction rest as [| c t IH]; intros prev n Hn; cbn [run_lengths].
  - now constructor.
  - destruct (c =? prev)%N; [apply IH; lia |].
    constructor; [exact Hn | apply IH; lia].
Qed.

Lemma run_cost_nonneg n : 0 <= run_cost n.
Proof. unfold run_cost. destruct (Z.leb_spec 3 n); lia. Qed.

Lemma run_cost_zero n : run_cost n = 0 <-> n < 3.
Proof. unfold run_cost. destruct (Z.leb_spec 3 n); lia. Qed.

Lemma sumZ_cost_zero l :
  sumZ (map run_cost l) = 0 <-> Forall (fun n => n < 3) l.
Proof.
  induction l as [| n l IH]; cbn [map sumZ fold_right].
  - split; [constructor | reflexivity].
  - fold (sumZ (map run_cost l)).
    assert (Hl : 0 <= sumZ (map run_cost l)).
    { clear IH. induction l as [| m l IHl]; cbn [map sumZ fold_right];
        [lia |]. fold (sumZ (map run_cost l)).
      pose proof (run_cost_nonneg m). lia. }
    pose proof (run_cost_nonneg n). split.
    + intros H0. constructor; [apply run_cost_zero; lia | apply IH; lia].
    + intros HF. inversion HF; subst.
      assert (run_cost n = 0) by now apply run_cost_zero.
      assert (sumZ (map run_cost l) = 0) by now apply IH.
      lia.
Qed.

Lemma run_penalty_nonneg pw : 0 <= run_penalty pw.
Proof.
  unfold run_penalty. induction (runs pw) as [| n l IH];
    cbn [map sumZ fold_right]; [lia |].
  fold (sumZ (map run_cost l)). pose proof (run_cost_nonneg n). lia.
Qed.

(** X7: the repeat penalty is 0 exactly when no run of equal characters
    has three characters or more and no character makes up more than 40%
    of the password. *)
Theorem penalty_repeats_zero_iff (pw : str) :
  penalty_repeats pw = Ok 0 <->
  Forall (fun n => n < 3) (runs pw) /\ skewed pw = false.
Proof.
  rewrite penalty_repeats_spec.
  pose proof (run_penalty_nonneg pw) as Hr.
  unfold run_penalty in *. rewrite <- sumZ_cost_zero. split.
  - intros E. injection E as E.
    destruct (skewed pw); [lia |]. split; [lia | reflexivity].
  - intros [H0 ->]. rewrite H0. reflexivity.
Qed.

(** X8: a password of one or two characters always gets the repeat
    penalty 5: its most frequent character makes up at least half of
    it. *)
Theorem penalty_repeats_short (pw : str) :
  pw <> [] -> len pw <= 2 -> penalty_repeats pw = Ok 5.
Proof.
  intros Hne Hlen. rewrite penalty_repeats_spec.
  destruct pw as [| a [| b [| c t]]]; [congruence | | |].
  - unfold skewed, occurrences, run_penalty. cbn [existsb runs run_lengths].
    rewrite count_cons, N.eqb_refl. reflexivity.
  - unfold skewed, occurrences, run_penalty. cbn [existsb runs run_lengths].
    rewrite !count_cons, N.eqb_refl.
    change (count (N.eqb a) []) with 0.
    destruct (b =? a)%N, (a =? b)%N; reflexivity.
  - rewrite !len_cons in Hlen. pose proof (len_nonneg t). lia.
Qed.

Lemma penalty_repeats_short_witness :
  lit "ab" <> [] /\ len (lit "ab") <= 2 /\ penalty_repeats (lit "ab") = Ok 5.
Proof.
  assert (H1 : lit "ab" <> []) by discriminate.
  assert (H2 : len (lit "ab") <= 2) by (vm_compute; discriminate).
  split; [exact H1 |]. split; [exact H2 |].
  exact (penalty_repeats_short (lit "ab") H1 H2).
Defined.

(** ** More on the sequence penalizer *)

Lemma str_eqb_eq a b : str_eqb a b = true <-> a = b.
Proof.
  revert b. induction a as [| x a IH]; intros [| y b]; simpl;
    try (split; [discriminate | intros E; discriminate E]).
  - split; reflexivity.
  - rewrite andb_true_iff, N.eqb_eq, IH. split.
    + intros [-> ->]. reflexivity.
    + intros E. injection E as -> ->. auto.
Qed.

Lemma mem_str_In x l : mem_str x l = true <-> In x l.
Proof.
  unfold mem_str. rewrite existsb_exists. split.
  - intros [y [Hy E]]. apply str_eqb_eq in E. now subst.
  - intros H. exists x. split; [exact H | apply str_eqb_refl].
Qed.

Lemma count_zero_iff {A} (f : A -> bool) l :
  count f l = 0 <-> forall x, In x l -> f x = false.
Proof.
  split; [| apply count_none].
  induction l as [| y l IH]; intros H x Hx; [destruct Hx |].
  rewrite count_cons in H. pose proof (count_nonneg f l).
  destruct (f y) eqn:Ey; cbn [Z.b2z] in H; [lia |].
  destruct Hx as [<- | Hx]; [exact Ey | apply IH; [lia | exact Hx]].
Qed.

Lemma str_in_prefix n w s :
  str_in w s = true -> str_in (firstn n w) s = true.
Proof.
  apply str_in_trans. apply str_in_spec.
  exists [], (skipn n w). simpl. now rewrite firstn_skipn.
Qed.

Lemma four_windows_are_windows :
  forallb (fun w => mem_str w seq_windows) four_windows = true.
Proof. vm_compute. reflexivity. Qed.

Lemma windows_start_with_four :
  forallb (fun w => mem_str (firstn 4 w) four_windows) seq_windows = true.
Proof. vm_compute. reflexivity. Qed.

Section MoreSequences.
Context {U : Unicode}.

(** X9: the sequence penalty is one of 0, 3, 6, 9 and 12. *)
Theorem penalty_sequences_values (pw : str) :
  In (penalty_sequences pw) [0; 3; 6; 9; 12].
Proof.
  rewrite penalty_sequences_count.
  pose proof (count_nonneg (fun w => str_in w (lower pw))
                           (flat_map windows_of seqs)) as H.
  assert (Hv : Z.min (3 * count (fun w => str_in w (lower pw))
                               (flat_map windows_of seqs)) 12 = 0 \/
               Z.min (3 * count (fun w => str_in w (lower pw))
                               (flat_map windows_of seqs)) 12 = 3 \/
               Z.min (3 * count (fun w => str_in w (lower pw))
                               (flat_map windows_of seqs)) 12 = 6 \/
               Z.min (3 * count (fun w => str_in w (lower pw))
                               (flat_map windows_of seqs)) 12 = 9 \/
               Z.min (3 * count (fun w => str_in w (lower pw))
                               (flat_map windows_of seqs)) 12 = 12) by lia.
  cbn [In]. intuition.
Qed.

Hypothesis HU : UnicodeLaws U.

(** X10: the sequence penalty is 0 exactly when none of the windows of
    four characters (of the alphabet, of the digits, forward or reversed)
    occurs in the lowered password. *)
Theorem penalty_sequences_zero_iff (pw : str) :
  penalty_sequences pw = 0 <->
  forall w, In w four_windows -> str_in w (lower pw) = false.
Proof.
  rewrite penalty_sequences_count, (count_all_windows HU).
  pose proof (count_nonneg (fun w => str_in w (lower pw)) seq_windows).
  assert (E : Z.min (3 * count (fun w => str_in w (lower pw)) seq_windows) 12
              = 0
              <-> count (fun w => str_in w (lower pw)) seq_windows = 0)
    by lia.
  rewrite E, count_zero_iff. clear E. split.
  - intros Hall w Hw. apply Hall. apply mem_str_In.
    pose proof four_windows_are_windows as F.
    rewrite forallb_forall in F. now apply F.
  - intros Hfour w Hw.
    destruct (str_in w (lower pw)) eqn:E; [| reflexivity].
    pose proof windows_start_with_four as F.
    rewrite forallb_forall in F. specialize (F w Hw).
    apply mem_str_In in F. rewrite <- (Hfour _ F).
    symmetry. now apply str_in_prefix.
Qed.

End MoreSequences.

Lemma penalty_sequences_zero_iff_witness :
  UnicodeLaws Latin1 /\
  (penalty_sequences (U:=Latin1) (lit "Tr0ub4dor&3") = 0 <->
   forall w, In w four_windows ->
             str_in w (lower (Unicode:=Latin1) (lit "Tr0ub4dor&3")) = false).
Proof.
  split; [exact Latin1_laws |].
  exact (penalty_sequences_zero_iff (U:=Latin1) Latin1_laws
           (lit "Tr0ub4dor&3")).
Defined.

(** ** The two patterns of the pattern penalizer *)

Section Patterns2.
Context {U : Unicode}.

Lemma year_here prev s :
  re_match year_re prev s (fun _ _ => true) = true <->
  exists a b q,
    (s = lit "19" ++ a :: b :: q \/ s = lit "20" ++ a :: b :: q) /\
    isdecimal a = true /\ isdecimal b = true.
Proof.
  destruct s as [| c1 [| c2 [| a [| b t]]]]; cbn -[N.eqb].
  1-4: split; [ rewrite ?orb_true_iff, ?andb_true_iff; intuition discriminate
              | intros [a' [b' [q [[E | E] _]]]]; discriminate E ].
  rewrite !orb_true_iff, !andb_true_iff, !N.eqb_eq. split.
  - intros [[<- [<- [Ha [Hb _]]]] | [<- [<- [Ha [Hb _]]]]];
      exists a, b, t; auto.
  - intros [a' [b' [q [[E | E] [Ha Hb]]]]]; injection E as -> -> -> -> ->;
      [left | right]; auto.
Qed.

Lemma year_search prev s : search_from year_re prev s = true <-> year_like s.
Proof.
  revert prev. induction s as [| c t IH]; intros prev.
  - cbn [search_from]. rewrite orb_false_r, year_here. split.
    + intros [a [b [q [[E | E] _]]]]; discriminate E.
    + intros [p [a [b [q [[E | E] _]]]]]; destruct p; discriminate E.
  - cbn [search_from]. rewrite orb_true_iff, year_here, IH. split.
    + intros [[a [b [q [E H]]]] | [p [a [b [q [E H]]]]]].
      * exists [], a, b, q. split; [exact E | exact H].
      * exists (c :: p), a, b, q. split; [| exact H].
        destruct E as [-> | ->]; [left | right]; reflexivity.
    + intros [p [a [b [q [E H]]]]]. destruct p as [| c' p].
      * left. exists a, b, q. split; [exact E | exact H].
      * right. exists p, a, b, q. split; [| exact H].
        destruct E as [E | E]; injection E as _ E; [left | right]; exact E.
Qed.

(** X11: the year pattern is found exactly in the strings that contain 19
    or 20 followed by two decimal digits (of any script); the pattern
    penalizer then adds 5, once. *)
Theorem year_re_search (s : str) :
  re_search year_re s = true <-> year_like s.
Proof. apply year_search. Qed.

Lemma starts_or_skips_match (P : char -> Prop) r :
  starts_or_skips P r ->
  forall prev s k,
    re_match r prev s k = true ->
    (exists c t, s = c :: t /\ P c) \/ k prev s = true.
Proof.
  induction r as [| p | a IHa b IHb | a IHa b IHb | a IHa |];
    cbn [starts_or_skips re_match]; intros H prev s k E.
  - now right.
  - destruct s as [| c t]; [discriminate |].
    apply andb_true_iff in E. left. exists c, t. split; [reflexivity |].
    apply H. tauto.
  - destruct H as [Ha Hb].
    destruct (IHa Ha _ _ _ E) as [Hs | E']; [now left |].
    exact (IHb Hb _ _ _ E').
  - destruct H as [Ha Hb]. apply orb_true_iff in E.
    destruct E as [E | E]; [exact (IHa Ha _ _ _ E) | exact (IHb Hb _ _ _ E)].
  - apply orb_true_iff in E.
    destruct E as [E | E]; [exact (IHa H _ _ _ E) | now right].
  - apply andb_true_iff in E. right. tauto.
Qed.

Lemma starts_with_match (P : char -> Prop) r :
  starts_with P r ->
  forall prev s k,
    re_match r prev s k = true -> exists c t, s = c :: t /\ P c.
Proof.
  induction r as [| p | a IHa b IHb | a IHa b IHb | a IHa |];
    cbn [starts_with re_match]; intros H prev s k E; try contradiction.
  - destruct s as [| c t]; [discriminate |].
    apply andb_true_iff in E. exists c, t. split; [reflexivity |].
    apply H. tauto.
  - destruct H as [Ha | [Ha Hb]].
    + exact (IHa Ha _ _ _ E).
    + destruct (starts_or_skips_match P a Ha _ _ _ E) as [Hs | E'];
        [exact Hs | exact (IHb Hb _ _ _ E')].
  - destruct H as [Ha Hb]. apply orb_true_iff in E.
    destruct E as [E | E]; [exact (IHa Ha _ _ _ E) | exact (IHb Hb _ _ _ E)].
Qed.

Lemma starts_with_search (P : char -> Prop) r s :
  starts_with P r -> re_search r s = true -> exists c, In c s /\ P c.
Proof.
  intros H. unfold re_search. generalize (@None char).
  induction s as [| c t IH]; intros prev E; cbn [search_from] in E;
    apply orb_true_iff in E; destruct E as [E | E]; try discriminate.
  - destruct (starts_with_match P r H _ _ _ E) as [d [t' [Ed _]]].
    discriminate Ed.
  - destruct (starts_with_match P r H _ _ _ E) as [d [t' [Ed Hd]]].
    injection Ed as <- <-. exists c. split; [now left | exact Hd].
  - destruct (IH _ E) as [d [Hd HP]]. exists d. split; [now right | exact HP].
Qed.

Lemma year_re_starts_with_digit :
  starts_with (fun c => ascii_isdigit c = true) year_re.
Proof.
  cbn -[N.eqb]. left.
  split; left; intros c E; apply N.eqb_eq in E; now subst.
Qed.

Lemma date_re_starts_with_digit :
  starts_with (fun c => ascii_isdigit c = true) date_re.
Proof.
  cbn -[N.eqb in_range]. right. split; [exact I |]. left. split.
  - right. split.
    + intros c E. apply N.eqb_eq in E. now subst.
    + intros c E. unfold ascii_isdigit, in_range in *.
      apply andb_true_iff in E. destruct E as [E1 E2].
      apply N.leb_le in E1. apply andb_true_iff.
      split; [apply N.leb_le; lia | exact E2].
  - left. intros c E. apply N.eqb_eq in E. now subst.
Qed.

(** X12: the year and the date pattern are only found in a lowered
    password that contains one of the digits 0 to 9; without one, the
    pattern penalty is 6 for each listed pattern and each keyboard row
    present, at most 20. *)
Theorem no_digit_no_date (pw : str) :
  (forall c, In c (lower pw) -> ascii_isdigit c = false) ->
  re_search year_re (lower pw) = false /\
  re_search date_re (lower pw) = false /\
  penalty_common_patterns pw
  = Z.min (6 * count (fun pat => str_in pat (lower pw)) COMMON_PATTERNS
           + 6 * count (fun row => str_in row (lower pw)
                                   || str_in (rev row) (lower pw))
                       keyboard_rows) 20.
Proof.
  intros Hno.
  assert (Hy : re_search year_re (lower pw) = false).
  { apply not_true_is_false. intros E.
    destruct (starts_with_search _ _ _ year_re_starts_with_digit E)
      as [c [Hc Hd]].
    rewrite (Hno c Hc) in Hd. discriminate. }
  assert (Hd : re_search date_re (lower pw) = false).
  { apply not_true_is_false. intros E.
    destruct (starts_with_search _ _ _ date_re_starts_with_digit E)
      as [c [Hc Hd]].
    rewrite (Hno c Hc) in Hd. discriminate. }
  split; [exact Hy |]. split; [exact Hd |].
  unfold penalty_common_patterns. rewrite Hy, Hd, !fold_add_count.
  f_equal.
Qed.

(** X13: the pattern penalty is one of 0, 5, 6, 10, 11, 12, 16, 17, 18
    and 20. *)
Theorem penalty_common_patterns_values (pw : str) :
  In (penalty_common_patterns pw) [0; 5; 6; 10; 11; 12; 16; 17; 18; 20].
Proof.
  unfold penalty_common_patterns. rewrite !fold_add_count.
  pose proof (count_nonneg (fun pat => str_in pat (lower pw))
                           COMMON_PATTERNS) as H1.
  pose proof (count_nonneg
                (fun row => str_in row (lower pw)
                            || str_in (rev row) (lower pw)) keyboard_rows)
    as H2.
  set (n1 := count _ COMMON_PATTERNS) in *.
  set (n2 := count _ keyboard_rows) in *.
  cbn [In].
  destruct (re_search year_re (lower pw)),
           (re_search date_re (lower pw)); lia.
Qed.

Hypothesis HU : UnicodeLaws U.

(** X14: the pattern penalty of a password is that of its lowered
    form. *)
Theorem penalty_common_patterns_case_blind (pw : str) :
  penalty_common_patterns (lower pw) = penalty_common_patterns pw.
Proof. unfold penalty_common_patterns. now rewrite (lower_idem U HU). Qed.

End Patterns2.

Lemma no_digit_no_date_witness :
  (forall c, In c (lower (Unicode:=Latin1) (lit "Qwerty!")) ->
             ascii_isdigit c = false) /\
  penalty_common_patterns (U:=Latin1) (lit "Qwerty!") = 12.
Proof.
  assert (H : forall c, In c (lower (Unicode:=Latin1) (lit "Qwerty!")) ->
                        ascii_isdigit c = false).
  { intros c Hc. vm_compute in Hc.
    repeat (destruct Hc as [<- | Hc]; [reflexivity |]). destruct Hc. }
  split; [exact H |].
  rewrite (proj2 (proj2 (no_digit_no_date (U:=Latin1) (lit "Qwerty!") H))).
  vm_compute. reflexivity.
Defined.

Lemma penalty_common_patterns_case_blind_witness :
  UnicodeLaws Latin1 /\
  penalty_common_patterns (U:=Latin1) (lower (Unicode:=Latin1) (lit "QweRTY"))
  = penalty_common_patterns (U:=Latin1) (lit "QweRTY").
Proof.
  split; [exact Latin1_laws |].
  exact (penalty_common_patterns_case_blind (U:=Latin1) Latin1_laws
           (lit "QweRTY")).
Defined.

(** ** Bounds on the entropy estimate *)

Lemma log2_pow20_bounds c n :
  10 <= c <= 99 -> 0 < n ->
  66 * n <= Z.log2 (c ^ (20 * n)) < 133 * n.
Proof.
  intros Hc Hn.
  rewrite Z.pow_mul_r by lia.
  assert (H10 : 2 ^ 66 <= c ^ 20).
  { apply Z.le_trans with (10 ^ 20); [vm_compute; discriminate |].
    apply Z.pow_le_mono_l. lia. }
  assert (H99 : c ^ 20 < 2 ^ 133).
  { apply Z.le_lt_trans with (99 ^ 20); [| vm_compute; reflexivity].
    apply Z.pow_le_mono_l. lia. }
  assert (Hpos : 0 < c ^ 20) by (apply Z.pow_pos_nonneg; lia).
  split.
  - replace (66 * n) with (Z.log2 (2 ^ (66 * n)))
      by (apply Z.log2_pow2; lia).
    apply Z.log2_le_mono. rewrite Z.pow_mul_r by lia.
    apply Z.pow_le_mono_l. split; [apply Z.pow_nonneg; lia | exact H10].
  - apply Z.log2_lt_pow2; [apply Z.pow_pos_nonneg; lia |].
    rewrite Z.pow_mul_r by lia.
    apply Z.pow_lt_mono_l; lia.
Qed.

Section Entropy.
Context {U : Unicode}.

Lemma has_class_nonempty k pw : has_class k pw = true -> 0 < len pw.
Proof.
  destruct pw as [| c t]; [discriminate |]. intros _.
  rewrite len_cons. pose proof (len_nonneg t). lia.
Qed.

(** X15: the entropy estimate is 0.0 when the password has none of the
    four classes; otherwise it lies between 3.3 and 6.7 bits for each
    character of the password. *)
Theorem estimate_entropy_bits_bounds (pw : str) :
  exists e,
    estimate_entropy_bits pw = Ok e /\
    (kinds pw = 0 -> e = 0) /\
    (0 < kinds pw -> 0 < len pw /\ 33 * len pw <= e <= 67 * len pw).
Proof.
  unfold estimate_entropy_bits, round1_mul_log2.
  rewrite charset_size_classes. unfold kinds.
  destruct (has_class Lowercase pw) eqn:El, (has_class Uppercase pw) eqn:Eu,
    (has_class Digit pw) eqn:Ed, (has_class Symbol pw) eqn:Es;
    cbn [Z.b2z];
    try (exists 0; split; [reflexivity | split; [reflexivity | lia]]);
    match goal with
    | H : has_class _ pw = true |- _ =>
        pose proof (has_class_nonempty _ _ H) as Hlen
    end;
    match goal with
    | |- context [Z.log2 (?c ^ _)] =>
        destruct (log2_pow20_bounds c (len pw) ltac:(lia) Hlen) as [Lo Hi];
        pose proof (Z.div_mod (Z.log2 (c ^ (20 * len pw)) + 1) 2
                      ltac:(lia)) as Hdm;
        pose proof (Z.mod_pos_bound (Z.log2 (c ^ (20 * len pw)) + 1) 2
                      ltac:(lia)) as Hmb
    end;
    eexists; (split; [reflexivity | split; [lia | intros _; lia]]).
Qed.

End Entropy.

(** ** The tips *)

Lemma all_bool_spec f : all_bool f = true -> forall b, f b = true.
Proof.
  unfold all_bool. intros H b. apply andb_true_iff in H.
  destruct b; tauto.
Qed.

Lemma tips_check_all c1 c2 c3 c4 c5 c6 c7 c8 :
  tips_check c1 c2 c3 c4 c5 c6 c7 c8 = true.
Proof.
  assert (H : all_bool (fun c1 => all_bool (fun c2 => all_bool (fun c3 =>
              all_bool (fun c4 => all_bool (fun c5 => all_bool (fun c6 =>
              all_bool (fun c7 => all_bool (fun c8 =>
                tips_check c1 c2 c3 c4 c5 c6 c7 c8)))))))) = true)
    by (vm_compute; reflexivity).
  apply (all_bool_spec _ (all_bool_spec _ (all_bool_spec _ (all_bool_spec _
         (all_bool_spec _ (all_bool_spec _ (all_bool_spec _
         (all_bool_spec _ H c1) c2) c3) c4) c5) c6) c7) c8).
Qed.

Lemma is_only_nice_iff t : is_only_nice t = true <-> t = [tip_nice].
Proof.
  destruct t as [| x [| y t]]; simpl; try (split; intros E; discriminate E).
  rewrite str_eqb_eq. split; [intros ->; reflexivity | intros E; now injection E].
Qed.

Section Tips.
Context {U : Unicode}.

Lemma tips_as_table pw pr :
  penalty_repeats pw = Ok pr ->
  tips pw = Ok (tips_of (len pw <? 12) (negb (has_class Lowercase pw))
                        (negb (has_class Uppercase pw))
                        (negb (has_class Digit pw))
                        (negb (has_class Symbol pw)) (0 <? pr)
                        (0 <? penalty_sequences pw)
                        (0 <? penalty_common_patterns pw)).
Proof. intros Hp. unfold tips. rewrite Hp. reflexivity. Qed.

(** X16: each tip is given exactly when its condition holds (fewer than
    12 characters; a class missing; a repeat, sequence or pattern penalty
    above 0); the passphrase suggestion is given exactly when no condition
    holds, and is then the only tip; there are between one and eight
    tips. *)
Theorem tips_conditions (pw : str) :
  exists t pr,
    tips pw = Ok t /\ penalty_repeats pw = Ok pr /\
    (In tip_length t <-> len pw < 12) /\
    (In tip_lower t <-> has_class Lowercase pw = false) /\
    (In tip_upper t <-> has_class Uppercase pw = false) /\
    (In tip_digit t <-> has_class Digit pw = false) /\
    (In tip_symbol t <-> has_class Symbol pw = false) /\
    (In tip_repeats t <-> 0 < pr) /\
    (In tip_sequences t <-> 0 < penalty_sequences pw) /\
    (In tip_patterns t <-> 0 < penalty_common_patterns pw) /\
    (In tip_nice t <->
     12 <= len pw /\ kinds pw = 4 /\ pr = 0 /\
     penalty_sequences pw = 0 /\ penalty_common_patterns pw = 0) /\
    (In tip_nice t <-> t = [tip_nice]) /\
    1 <= len t <= 8.
Proof.
  destruct (penalty_repeats_range pw) as [pr [Hp Hpr]].
  pose proof (penalty_sequences_range pw) as Hs.
  pose proof (penalty_common_patterns_range pw) as Hc.
  exists (tips_of (len pw <? 12) (negb (has_class Lowercase pw))
                  (negb (has_class Uppercase pw))
                  (negb (has_class Digit pw))
                  (negb (has_class Symbol pw)) (0 <? pr)
                  (0 <? penalty_sequences pw)
                  (0 <? penalty_common_patterns pw)), pr.
  split; [now apply tips_as_table |]. split; [exact Hp |].
  pose proof (tips_check_all (len pw <? 12) (negb (has_class Lowercase pw))
                  (negb (has_class Uppercase pw))
                  (negb (has_class Digit pw))
                  (negb (has_class Symbol pw)) (0 <? pr)
                  (0 <? penalty_sequences pw)
                  (0 <? penalty_common_patterns pw)) as H.
  unfold tips_check in H. cbv zeta in H.
  set (t := tips_of _ _ _ _ _ _ _ _) in *.
  repeat (apply andb_true_iff in H; let H' := fresh "K" in destruct H as [H H']).
  apply eqb_prop in H, K9, K8, K7, K6, K5, K4, K3, K2, K1.
  apply Z.leb_le in K, K0.
  rewrite <- !mem_str_In, <- is_only_nice_iff.
  rewrite K1, H, K9, K8, K7, K6, K5, K4, K3, K2.
  rewrite !negb_true_iff, !Z.ltb_lt, !orb_false_iff, !negb_false_iff,
    !Z.ltb_ge.
  repeat match goal with |- _ /\ _ => split end; try tauto; try lia.
  split.
  - intros [[[[[[[A B] C] D] E] F] G] I]. unfold kinds.
    rewrite B, C, D, E. cbn [Z.b2z]. lia.
  - unfold kinds.
    destruct (has_class Lowercase pw), (has_class Uppercase pw),
      (has_class Digit pw), (has_class Symbol pw); cbn [Z.b2z];
      intros [A [B [C [D E]]]]; try lia;
      repeat split; try reflexivity; lia.
Qed.

End Tips.

(** ** Who gets the best label *)

Section Best.
Context {U : Unicode}.

Lemma score_length_30 pw : score_length pw = 30 <-> 16 <= len pw.
Proof.
  unfold score_length.
  destruct (Z.leb_spec 16 (len pw)), (Z.leb_spec 12 (len pw)),
    (Z.leb_spec 8 (len pw)); lia.
Qed.

(** X17: the score is 70, and the label the one of the second tier
    (the best one given), exactly when the password has at least 16
    characters, all four classes, and no penalty at all. *)
Theorem strong_iff_flawless (pw : str) :
  exists r pr,
    score_password pw = Ok r /\ penalty_repeats pw = Ok pr /\
    (r_score r = 70 <->
     16 <= len pw /\ kinds pw = 4 /\ pr = 0 /\
     penalty_sequences pw = 0 /\ penalty_common_patterns pw = 0) /\
    (r_label r = strong <-> r_score r = 70).
Proof.
  destruct (score_variety_cases pw) as [v [Hv _]].
  destruct (penalty_repeats_range pw) as [p [Hp Hpr]].
  destruct (estimate_entropy_bits_ok pw) as [e [He _]].
  destruct (tips_ok pw) as [t [Ht _]].
  pose proof (bonus_strong_mix_kinds pw) as Hb.
  pose proof (score_length_range pw) as Hl.
  pose proof (score_length_30 pw) as H30.
  pose proof (penalty_sequences_range pw) as Hs.
  pose proof (penalty_common_patterns_range pw) as Hc.
  eexists. exists p.
  split; [apply (score_password_unfold pw v p
                  (if (14 <=? len pw) && (3 <=? kinds pw) then 10 else 0)
                  e t); assumption |].
  split; [exact Hp |].
  cbn [r_score r_label].
  rewrite score_variety_kinds in Hv. unfold kinds in *.
  assert (Hscore :
            Z.max 0 (Z.min 100
              (score_length pw + v
               + (if (14 <=? len pw)
                     && (3 <=? Z.b2z (has_class Lowercase pw)
                               + Z.b2z (has_class Uppercase pw)
                               + Z.b2z (has_class Digit pw)
                               + Z.b2z (has_class Symbol pw))
                  then 10 else 0)
               - (p + penalty_sequences pw + penalty_common_patterns pw)))
            = 70 <->
            16 <= len pw /\
            Z.b2z (has_class Lowercase pw) + Z.b2z (has_class Uppercase pw)
            + Z.b2z (has_class Digit pw) + Z.b2z (has_class Symbol pw) = 4 /\
            p = 0 /\ penalty_sequences pw = 0 /\
            penalty_common_patterns pw = 0).
  { destruct (has_class Lowercase pw), (has_class Uppercase pw),
      (has_class Digit pw), (has_class Symbol pw);
      cbn [Z.b2z] in *; injection Hv as <-;
      destruct (Z.leb_spec 14 (len pw)); cbn [andb Z.leb Z.add Z.compare
                                               Pos.compare Pos.add
                                               Pos.compare_cont Pos.succ];
      lia. }
  split; [exact Hscore |].
  split.
  - intros E. apply strength_label_cases in E.
    destruct (has_class Lowercase pw), (has_class Uppercase pw),
      (has_class Digit pw), (has_class Symbol pw);
      cbn [Z.b2z] in *; injection Hv as <-;
      destruct (Z.leb_spec 14 (len pw)); cbn [andb Z.leb Z.add Z.compare
                                               Pos.compare Pos.add
                                               Pos.compare_cont Pos.succ]
                                             in *;
      lia.
  - intros E. apply strength_label_cases. lia.
Qed.

End Best.

(** ** Mirror images *)

Lemma count_map {A B} (f : B -> bool) (g : A -> B) l :
  count f (map g l) = count (fun x => f (g x)) l.
Proof.
  induction l as [| x l IH]; [reflexivity |].
  cbn [map]. now rewrite !count_cons, IH.
Qed.

Lemma count_Permutation {A} (f : A -> bool) l l' :
  Permutation l l' -> count f l = count f l'.
Proof.
  induction 1 as [| x l l' _ IH | x y l | l l' l'' _ IH1 _ IH2].
  - reflexivity.
  - now rewrite !count_cons, IH.
  - rewrite !count_cons. lia.
  - now rewrite IH1.
Qed.

Lemma str_in_rev w s : str_in w (rev s) = str_in (rev w) s.
Proof.
  apply eq_true_iff_eq. rewrite !str_in_spec. split.
  - intros [p [q E]]. exists (rev q), (rev p).
    rewrite <- (rev_involutive s), E, !rev_app_distr.
    now rewrite <- app_assoc.
  - intros [p [q E]]. exists (rev q), (rev p).
    rewrite E, !rev_app_distr, rev_involutive. now rewrite <- app_assoc.
Qed.

Lemma all_windows_distinct : distinct all_windows = true.
Proof. vm_compute. reflexivity. Qed.

Lemma all_windows_mirrored :
  forallb (fun w => mem_str (rev w) all_windows) all_windows = true.
Proof. vm_compute. reflexivity. Qed.

Lemma all_windows_rev_Permutation :
  Permutation (map (@rev char) all_windows) all_windows.
Proof.
  pose proof all_windows_mirrored as M. rewrite forallb_forall in M.
  apply NoDup_Permutation.
  - apply distinct_NoDup. vm_compute. reflexivity.
  - apply distinct_NoDup, all_windows_distinct.
  - intros x. rewrite in_map_iff. split.
    + intros [w [<- Hw]]. apply mem_str_In. now apply M.
    + intros Hx. exists (rev x). split; [apply rev_involutive |].
      apply mem_str_In. now apply M.
Qed.

Section Mirror.
Context {U : Unicode}.
Hypothesis HU : UnicodeLaws U.

(** X18: an ASCII password and its mirror image get the same sequence
    penalty. *)
Theorem penalty_sequences_mirror (pw : str) :
  ascii_str pw -> penalty_sequences (rev pw) = penalty_sequences pw.
Proof.
  intros Hpw.
  assert (Hrev : ascii_str (rev pw)).
  { unfold ascii_str in *. rewrite forallb_forall in *.
    intros c Hc. apply Hpw. now apply in_rev. }
  rewrite !penalty_sequences_count. fold all_windows.
  rewrite (lower_ascii U HU _ Hrev), (lower_ascii U HU _ Hpw), map_rev.
  f_equal. f_equal.
  transitivity (count (fun w => str_in w (map ascii_lower pw))
                      (map (@rev char) all_windows)).
  - rewrite count_map. unfold count. f_equal. apply filter_ext.
    intros w. apply str_in_rev.
  - apply count_Permutation, all_windows_rev_Permutation.
Qed.

End Mirror.

Lemma penalty_sequences_mirror_witness :
  UnicodeLaws Latin1 /\ ascii_str (lit "xyz4321Q") /\
  penalty_sequences (U:=Latin1) (rev (lit "xyz4321Q"))
  = penalty_sequences (U:=Latin1) (lit "xyz4321Q").
Proof.
  split; [exact Latin1_laws |]. split; [reflexivity |].
  exact (penalty_sequences_mirror (U:=Latin1) Latin1_laws (lit "xyz4321Q")
           eq_refl).
Defined.

Lemma score_variety_incl_witness :
  incl (lit "ab") (lit "b1a") /\
  exists a b, score_variety (U:=Latin1) (lit "ab") = Ok a /\
              score_variety (U:=Latin1) (lit "b1a") = Ok b /\ a <= b.
Proof.
  assert (H : incl (lit "ab") (lit "b1a")).
  { intros c Hc. vm_compute in Hc. vm_compute.
    destruct Hc as [<- | [<- | []]]; auto. }
  split; [exact H |].
  exact (score_variety_incl (U:=Latin1) (lit "ab") (lit "b1a") H).
Defined.

(** ** The printed breakdown *)

Lemma str_of_int_neg z : 0 < z -> exists d, str_of_int (- z) = 45%N :: d.
Proof.
  intros H. destruct z as [| p | p]; try lia.
  unfold str_of_int. cbn [Z.opp Z.to_int NilZero.string_of_int].
  eexists. reflexivity.
Qed.

(** X19: in the breakdown line that [main] prints, a sequence or pattern
    penalty above 0 is written behind two minus signs (the line negates
    the two penalties after a literal minus sign). *)
Theorem breakdown_line_double_minus (b : Breakdown) :
  0 < bd_penalty_sequences b \/ 0 < bd_penalty_patterns b ->
  str_in (lit "--") (breakdown_line b) = true.
Proof.
  intros [H | H]; destruct (str_of_int_neg _ H) as [d Hd];
    apply str_in_spec; unfold breakdown_line; rewrite Hd.
  - exists (lit "Breakdown: length+variety+bonus = "
            ++ str_of_int (bd_length b)
            ++ lit " + " ++ str_of_int (bd_variety b)
            ++ lit " + " ++ str_of_int (bd_bonus b) ++ lit ", "
            ++ lit "penalties = -" ++ str_of_int (bd_penalty_repeats b)),
           (d ++ lit "-" ++ str_of_int (- bd_penalty_patterns b)).
    rewrite <- !app_assoc. reflexivity.
  - exists (lit "Breakdown: length+variety+bonus = "
            ++ str_of_int (bd_length b)
            ++ lit " + " ++ str_of_int (bd_variety b)
            ++ lit " + " ++ str_of_int (bd_bonus b) ++ lit ", "
            ++ lit "penalties = -" ++ str_of_int (bd_penalty_repeats b)
            ++ lit "-" ++ str_of_int (- bd_penalty_sequences b)),
           d.
    rewrite <- !app_assoc. reflexivity.
Qed.

Lemma breakdown_line_double_minus_witness :
  (0 < 12 \/ 0 < 12) /\
  str_in (lit "--")
         (breakdown_line
            {| bd_length := 10; bd_variety := 10; bd_bonus := 0;
               bd_penalty_repeats := 0; bd_penalty_sequences := 12;
               bd_penalty_patterns := 12 |}) = true.
Proof.
  assert (H : 0 < 12 \/ 0 < 12) by (left; reflexivity).
  split; [exact H |].
  exact (breakdown_line_double_minus
           {| bd_length := 10; bd_variety := 10; bd_bonus := 0;
              bd_penalty_repeats := 0; bd_penalty_sequences := 12;
              bd_penalty_patterns := 12 |} H).
Defined.

(** ** What counts toward a class *)

Lemma SYMBOLS_ascii : forallb is_ascii SYMBOLS = true.
Proof. vm_compute. reflexivity. Qed.

Lemma symbol_is_ascii c : str_in [c] SYMBOLS = true -> is_ascii c = true.
Proof.
  rewrite str_in_singleton. intros H. apply existsb_exists in H.
  destruct H as [d [Hd E]]. apply N.eqb_eq in E. subst d.
  pose proof SYMBOLS_ascii as A. rewrite forallb_forall in A. now apply A.
Qed.

Section ByClass.
Context {U : Unicode}.

Lemma kinds_zero pw :
  kinds pw = 0 <-> forall k, has_class k pw = false.
Proof.
  unfold kinds. split.
  - intros H k.
    destruct (has_class Lowercase pw) eqn:El, (has_class Uppercase pw) eqn:Eu,
      (has_class Digit pw) eqn:Ed, (has_class Symbol pw) eqn:Es;
      cbn [Z.b2z] in H; try lia.
    destruct k; assumption.
  - intros H. now rewrite !H.
Qed.

Lemma kinds_range pw : 0 <= kinds pw <= 4.
Proof.
  unfold kinds.
  destruct (has_class Lowercase pw), (has_class Uppercase pw),
    (has_class Digit pw), (has_class Symbol pw); cbn [Z.b2z]; lia.
Qed.

Lemma score_variety_zero_kinds pw : score_variety pw = Ok 0 <-> kinds pw = 0.
Proof.
  rewrite score_variety_kinds. unfold kinds.
  destruct (has_class Lowercase pw), (has_class Uppercase pw),
    (has_class Digit pw), (has_class Symbol pw); cbn [Z.b2z];
    (split; intros E; [try lia; try discriminate E | try lia; reflexivity]).
Qed.

Lemma has_class_false_iff k pw :
  has_class k pw = false <-> forall c, In c pw -> in_class k c = false.
Proof.
  unfold has_class. split.
  - intros H c Hc. destruct (in_class k c) eqn:E; [| reflexivity].
    assert (T : existsb (in_class k) pw = true)
      by (apply existsb_exists; eauto).
    congruence.
  - intros H. apply not_true_is_false. intros T.
    apply existsb_exists in T. destruct T as [c [Hc E]].
    rewrite (H c Hc) in E. discriminate.
Qed.

Hypothesis HU : UnicodeLaws U.

(** C3, amended.  The four tests are [islower], [isupper] and [isdigit]
    of the Unicode database and membership in [SYMBOLS].  On an ASCII
    character they are a-z, A-Z, 0-9 and the 32 distinct characters of
    [SYMBOLS]; a character outside ASCII is never a symbol, but it counts
    as lowercase, uppercase or digit when the database says so, as U+00E9
    does.  The variety score is the table entry at the number of classes
    that have a character in the password: at least 10 as soon as one
    character passes one test, and 0 exactly when every character fails
    all four, in which case the entropy estimate is 0 too. *)
Theorem score_variety_by_class (pw : str) :
  (forall c k, is_ascii c = true -> in_class k c = ascii_in_class k c) /\
  (forall c, is_ascii c = false -> in_class Symbol c = false) /\
  len (nodup N.eq_dec SYMBOLS) = 32 /\
  score_variety pw = getitem [0; 10; 18; 24; 30] (kinds pw) /\
  (forall c k, In c pw -> in_class k c = true ->
               exists v, score_variety pw = Ok v /\ 10 <= v) /\
  (score_variety pw = Ok 0 <->
   forall c, In c pw -> forall k, in_class k c = false) /\
  ((forall c, In c pw -> forall k, in_class k c = false) ->
   estimate_entropy_bits pw = Ok 0) /\
  (is_ascii 233%N = false /\ in_class (U:=Latin1) Lowercase 233%N = true /\
   score_variety (U:=Latin1) [233%N] = Ok 10).
Proof.
  split; [| split; [| split; [| split; [| split; [| split; [| split]]]]]].
  - intros c k Hc. destruct k; cbn [in_class ascii_in_class].
    + apply (islower_ascii U HU c Hc).
    + apply (isupper_ascii U HU c Hc).
    + apply (isdigit_ascii U HU c Hc).
    + reflexivity.
  - intros c Hc. cbn [in_class].
    destruct (str_in [c] SYMBOLS) eqn:E; [| reflexivity].
    apply symbol_is_ascii in E. congruence.
  - vm_compute. reflexivity.
  - apply score_variety_kinds.
  - intros c k Hc Hk.
    assert (Hh : has_class k pw = true).
    { unfold has_class. apply existsb_exists. eauto. }
    assert (Hpos : 1 <= kinds pw).
    { unfold kinds.
      destruct k; rewrite Hh;
        destruct (has_class Lowercase pw), (has_class Uppercase pw),
          (has_class Digit pw), (has_class Symbol pw); cbn [Z.b2z]; lia. }
    rewrite score_variety_kinds. revert Hpos. unfold kinds.
    destruct (has_class Lowercase pw), (has_class Uppercase pw),
      (has_class Digit pw), (has_class Symbol pw); cbn [Z.b2z]; intros Hpos;
      try lia; eexists; (split; [reflexivity | lia]).
  - rewrite score_variety_zero_kinds, kinds_zero. split.
    + intros H c Hc k. now apply (has_class_false_iff k pw).
    + intros H k. apply has_class_false_iff. intros c Hc. now apply H.
  - intros H. apply (score_variety_no_class pw H).
  - repeat split.
Qed.

End ByClass.

Lemma score_variety_by_class_witness :
  UnicodeLaws Latin1 /\
  (forall c k, is_ascii c = true ->
               in_class (U:=Latin1) k c = ascii_in_class k c) /\
  score_variety (U:=Latin1) (lit "a b") = getitem [0; 10; 18; 24; 30] 1 /\
  (score_variety (U:=Latin1) [32%N; 9%N; 160%N] = Ok 0 <->
   forall c, In c [32%N; 9%N; 160%N] ->
             forall k, in_class (U:=Latin1) k c = false).
Proof.
  split; [exact Latin1_laws |].
  pose proof (score_variety_by_class (U:=Latin1) Latin1_laws (lit "a b"))
    as [H1 [_ [_ [H4 _]]]].
  pose proof (score_variety_by_class (U:=Latin1) Latin1_laws
                [32%N; 9%N; 160%N]) as [_ [_ [_ [_ [_ [H6 _]]]]]].
  split; [exact H1 |]. split; [exact H4 | exact H6].
Defined.
